(** * KoreanTypographyDataset: path resolution, identity index, resilient
      image reader and triplet sampler

    A shallow embedding of [app/datasets/korean_aihub_sentence_dataset.py].

    - The file system is a tree of named entries; the order of a
      directory's entry list is the order in which [Path.glob] yields it.
    - A [pathlib.Path] is the list of its parts.  [str(path)] followed by
      [Path(...)] is the identity on such paths, so [image_path_list]
      stores the parts.
    - A file is modelled by what the code can observe of it: an image that
      [Image.open] accepts and [np.array] decodes to an array, an image
      that [Image.open] accepts but whose data does not decode, a label
      document whose [j["person"]["id"]] is a string, or anything else.
    - Writer-ids are byte strings (UTF-8).  Where the code moves them into
      a numpy array they lose their trailing NUL characters, as in a
      fixed-width unicode array ([np_str]).
    - Exceptions are values of [exn]; a computation returns [exn + A].
    - [__getitem__] and [read_image] run in a state-and-error monad over a
      [world] holding the dataset object and the global random state. *)

From Stdlib Require Import ZArith Lia.
From stdpp Require Import base list sorting strings gmap pretty.

Open Scope string_scope.
Open Scope list_scope.
Open Scope nat_scope.

#[local] Set Warnings "-clear-no-such-hyp".

(** ** Exceptions and the error monad used by construction *)

Inductive exn : Type :=
| IndexError          (* list index out of range *)
| ValueError          (* np.random.choice on an empty array, bad axes *)
| AssertionError      (* a failed [assert] *)
| OSError             (* [open] on a missing file or a directory;
                         [np.array] on image data that does not decode *)
| LabelError          (* json.load / j["person"]["id"] failed *)
| TransformError      (* raised by the augmentation collaborator *)
| FuelExhausted.      (* the [while] loop of [read_image] did not finish
                         within its fuel; never produced, see
                         [read_image_loop_total] *)

Definition result (A : Type) : Type := exn + A.

#[export] Instance result_ret : MRet result := λ A a, inr a.

#[export] Instance result_bind : MBind result := λ A B k r,
  match r with
  | inl e => inl e
  | inr a => k a
  end.

(** ** Python list indexing and string tests *)

(** [l[i]] with Python's wrap-around for negative [i]; [None] is
    IndexError. *)
Definition py_index {A} (l : list A) (i : Z) : option A :=
  if (0 <=? i)%Z then l !! Z.to_nat i
  else if (- Z.of_nat (length l) <=? i)%Z
       then l !! Z.to_nat (Z.of_nat (length l) + i)
       else None.

Definition index_or_raise {A} (l : list A) (i : Z) : result A :=
  match py_index l i with
  | Some a => inr a
  | None => inl IndexError
  end.

(** [needle in hay] on strings. *)
Fixpoint contains (needle hay : string) : bool :=
  String.prefix needle hay ||
  match hay with
  | EmptyString => false
  | String _ hay' => contains needle hay'
  end.

(** ** Arrays *)

Section Dataset.

Context {px : Type}.

(** A numpy array by its shape and its element function.  PIL images
    decode to two-dimensional (grey, palette) or three-dimensional
    (height, width, channels) arrays. *)
Inductive ndarray : Type :=
| Arr2 (d0 d1 : nat) (at2 : nat → nat → px)
| Arr3 (d0 d1 d2 : nat) (at3 : nat → nat → nat → px).

(** [a[:, :, :3]]: too many indices for a 2-d array. *)
Definition first3 (a : ndarray) : result ndarray :=
  match a with
  | Arr2 _ _ _ => inl IndexError
  | Arr3 d0 d1 d2 f => inr (Arr3 d0 d1 (d2 `min` 3) f)
  end.

Definition channels (a : ndarray) : option nat :=
  match a with
  | Arr2 _ _ _ => None
  | Arr3 _ _ d2 _ => Some d2
  end.

(** [a.transpose((2, 0, 1))] *)
Definition transpose201 (a : ndarray) : result ndarray :=
  match a with
  | Arr2 _ _ _ => inl ValueError
  | Arr3 d0 d1 d2 f => inr (Arr3 d2 d0 d1 (λ c i j, f i j c))
  end.

Definition astype (cast : px → px) (a : ndarray) : ndarray :=
  match a with
  | Arr2 d0 d1 f => Arr2 d0 d1 (λ i j, cast (f i j))
  | Arr3 d0 d1 d2 f => Arr3 d0 d1 d2 (λ i j k, cast (f i j k))
  end.

(** ** The file system *)

Inductive content : Type :=
| Pixels (a : ndarray)       (* an image file that decodes to [a] *)
| Truncated                  (* an image file with a valid header whose
                                data does not decode *)
| PersonId (id : string)     (* a JSON document, j["person"]["id"] = id *)
| Unreadable.                (* neither *)

#[warnings="-register-all"]
Inductive node : Type :=
| File (c : content)
| Dir (entries : list (string * node)).

Definition path : Type := list string.

Fixpoint entry (name : string) (es : list (string * node)) : option node :=
  match es with
  | [] => None
  | (n, x) :: es' => if String.eqb n name then Some x else entry name es'
  end.

Fixpoint resolve (n : node) (p : path) : option node :=
  match p with
  | [] => Some n
  | name :: p' =>
      match n with
      | Dir es =>
          match entry name es with
          | Some x => resolve x p'
          | None => None
          end
      | File _ => None
      end
  end.

(** [list(p.glob(pattern))] for a one-component pattern, given as the
    test on entry names it stands for.  A path that is missing or is not
    a directory yields nothing. *)
Definition glob (fs : node) (matches : string → bool) (p : path) : list path :=
  match resolve fs p with
  | Some (Dir es) => map (λ e, p ++ [e.1]) (List.filter (λ e, matches e.1) es)
  | _ => []
  end.

(** ["*"] *)
Definition star (_ : string) : bool := true.
(** ["*_0150_x*"] *)
Definition canonical (name : string) : bool := contains "_0150_x" name.
(** ["모사" in name] *)
Definition traced (name : string) : bool := contains "모사" name.

(** [Path.parent] *)
Definition parent (p : path) : path := removelast p.

(** A PIL image as [Image.open] returns it: the file is identified, its
    data is decoded only on use.  [None]: the data does not decode. *)
Inductive pil_image : Type :=
| PIL (data : option ndarray).

(** [Image.open(p)]; [None] when it raises (a missing file, a directory,
    a file that is not an image). *)
Definition Image_open (fs : node) (p : path) : option pil_image :=
  match resolve fs p with
  | Some (File (Pixels a)) => Some (PIL (Some a))
  | Some (File Truncated) => Some (PIL None)
  | _ => None
  end.

(** [np.array(image)]: loads the data, OSError when it does not decode. *)
Definition np_array (image : pil_image) : result ndarray :=
  match image with
  | PIL (Some a) => inr a
  | PIL None => inl OSError
  end.

(** [json.load(open(p))["person"]["id"]] *)
Definition get_label_from_json (fs : node) (p : path) : result string :=
  match resolve fs p with
  | Some (File (PersonId id)) => inr id
  | Some (File _) => inl LabelError
  | _ => inl OSError
  end.

(** ** Path Resolver: [read_paths] *)

Definition split_name (is_train : bool) : string :=
  if is_train then "Training" else "Validation".

Definition image_p (root_dir : path) (is_train : bool) : path :=
  root_dir ++ [split_name is_train; "01.원천데이터";
               String.append (if is_train then "T" else "V") "S_images"].

Definition label_p (root_dir : path) (is_train : bool) : path :=
  root_dir ++ [split_name is_train; "02.라벨링데이터";
               String.append (if is_train then "T" else "V") "L_labels"].

(** [self.is_sanity_check is not None and self.is_sanity_check is True] *)
Definition sanity_on (is_sanity_check : option bool) : bool :=
  match is_sanity_check with
  | Some true => true
  | _ => false
  end.

(** The [if self.is_train and i == 3: break / elif not self.is_train and
    i == 1: break] pair. *)
Definition cutoff_break (is_train : bool) (i : nat) : bool :=
  if is_train && (i =? 3)%nat then true
  else if negb is_train && (i =? 1)%nat then true
  else false.

Definition do_break (is_sanity_check : option bool) (is_train : bool)
    (i : nat) : bool :=
  sanity_on is_sanity_check && cutoff_break is_train i.

(** The two result lists being filled. *)
Definition acc : Type := list path * list string.

Section ReadPaths.

Variable fs : node.
Variable is_train : bool.
Variable is_sanity_check : option bool.

(** Lines 82-87: one canonical file per image sub-subfolder. *)
Fixpoint pos_loop (label_path : path) (zipped : list (path * path))
    (image_path_list : list path) : result (list path) :=
  match zipped with
  | [] => inr image_path_list
  | (img_pos, _) :: rest =>
      image_path ← index_or_raise (glob fs canonical img_pos) 0;
      a ← index_or_raise image_path (-3);
      b ← index_or_raise label_path (-3);
      if String.eqb a b
      then pos_loop label_path rest (image_path_list ++ [image_path])
      else inl AssertionError
  end.

(** Lines 72-95: the body of the writer-attempt loop after the traced
    test.  The message of the first [assert] indexes both listings at 0,
    so a failed check with an empty side surfaces as IndexError. *)
Definition attempt (img_tf lab_tf : path) (a : acc) : result acc :=
  let img_l := glob fs star img_tf in
  let lab_l := glob fs star lab_tf in
  if (length img_l =? length lab_l)%nat then
    let number_of_labels := length lab_l in
    lab0 ← index_or_raise lab_l 0;
    let label_path := lab0 ++ ["labels(sent1).json"] in
    image_path_list ← pos_loop label_path (zip img_l lab_l) a.1;
    label ← get_label_from_json fs label_path;
    inr (image_path_list, a.2 ++ replicate number_of_labels label)
  else
    _ ← index_or_raise img_l 0;
    _ ← index_or_raise lab_l 0;
    inl AssertionError.

(** Lines 65-102: the writer-attempt loop, [i_tf] being the enumerate
    counter.  [continue] on a traced name skips the body and the cut-off
    test with it. *)
Fixpoint tf_loop (i_tf : nat) (zipped : list (path * path)) (a : acc)
    : result acc :=
  match zipped with
  | [] => inr a
  | (img_tf, lab_tf) :: rest =>
      name ← index_or_raise img_tf (-1);
      if traced name
      then tf_loop (S i_tf) rest a
      else
        a' ← attempt img_tf lab_tf a;
        if do_break is_sanity_check is_train i_tf
        then inr a'
        else tf_loop (S i_tf) rest a'
  end.

(** Lines 64-107: the sentence-group loop. *)
Fixpoint sen_loop (i_sen : nat) (zipped : list (path * path)) (a : acc)
    : result acc :=
  match zipped with
  | [] => inr a
  | (img_sen, lab_sen) :: rest =>
      a' ← tf_loop 0 (zip (glob fs star img_sen) (glob fs star lab_sen)) a;
      if do_break is_sanity_check is_train i_sen
      then inr a'
      else sen_loop (S i_sen) rest a'
  end.

Definition read_paths (root_dir : path) : result acc :=
  a ← sen_loop 0 (zip (glob fs star (image_p root_dir is_train))
                       (glob fs star (label_p root_dir is_train))) ([], []);
  if (length a.1 =? length a.2)%nat then inr a else inl AssertionError.

End ReadPaths.

(** ** Writer-ids in numpy arrays *)

(** The value a fixed-width unicode array gives back for a string put
    into it: trailing NUL characters are padding and are dropped. *)
Fixpoint np_str (s : string) : string :=
  match s with
  | EmptyString => EmptyString
  | String c s' =>
      match np_str s' with
      | EmptyString =>
          if Ascii.eqb c Ascii.zero then EmptyString
          else String c EmptyString
      | String _ _ as r => String c r
      end
  end.

(** [np.array(labels)] *)
Definition np_asarray (labels : list string) : list string :=
  map np_str labels.

(** ** Identity Index: [label_to_integer] *)

Fixpoint insert_sorted (x : string) (l : list string) : list string :=
  match l with
  | [] => [x]
  | y :: l' => if String.leb x y then x :: l else y :: insert_sorted x l'
  end.

(** [ar.sort()] *)
Definition np_sort (l : list string) : list string :=
  foldr insert_sorted [] l.

(** [mask[1:] = ar[1:] != ar[:-1]], read off along the sorted array. *)
Fixpoint keep_changes (prev : string) (l : list string) : list string :=
  match l with
  | [] => []
  | y :: l' =>
      if String.eqb y prev then keep_changes y l' else y :: keep_changes y l'
  end.

(** numpy's [_unique1d] on an array: sort, then keep the first of every
    run. *)
Definition unique1d (ar : list string) : list string :=
  match np_sort ar with
  | [] => []
  | x :: r => x :: keep_changes x r
  end.

(** [np.unique(labels)] on a Python list: the list becomes an array
    first. *)
Definition np_unique (labels : list string) : list string :=
  unique1d (np_asarray labels).

Fixpoint enumerate_from {A} (start : nat) (l : list A) : list (nat * A) :=
  match l with
  | [] => []
  | x :: l' => (start, x) :: enumerate_from (S start) l'
  end.

Definition enumerate {A} (l : list A) : list (nat * A) := enumerate_from 0 l.

(** [str(i)] *)
Definition str (i : nat) : string := pretty i.

(** The loop body [return_dict[val] = str(i)]. *)
Definition assign (return_dict : gmap string string) (iv : nat * string)
    : gmap string string :=
  <[iv.2 := str iv.1]> return_dict.

Definition label_to_integer (label_list : list string) : gmap string string :=
  foldl assign ∅ (enumerate (np_unique label_list)).

(** ** The dataset object *)

Record dataset : Type := Dataset {
  root_dir : path;
  transform : option (ndarray → result ndarray);
  is_train : bool;
  is_sanity_check : option bool;
  image_path_list : list path;
  label_list : list string;
  label2int_map : gmap string string
}.

Definition __init__ (fs : node) (root : path)
    (tr : option (ndarray → result ndarray)) (train : bool)
    (sanity : option bool) : result dataset :=
  '(paths, labels) ← read_paths fs train sanity root;
  inr (Dataset root tr train sanity paths labels (label_to_integer labels)).

Definition __len__ (ds : dataset) : nat := length (label_list ds).

(** ** The state-and-error monad of the sampler *)

(** [entropy] is the stream of raw draws of numpy's global generator and
    [drawn] the number of draws consumed so far. *)
Record world : Type := World {
  self : dataset;
  entropy : nat → nat;
  drawn : nat
}.

Definition M (A : Type) : Type := world → result A * world.

#[export] Instance M_ret : MRet M := λ A a w, (inr a, w).

#[export] Instance M_bind : MBind M := λ A B k m w,
  match m w with
  | (inl e, w') => (inl e, w')
  | (inr a, w') => k a w'
  end.

Definition get_self : M dataset := λ w, (inr (self w), w).

Definition lift {A} (r : result A) : M A := λ w, (r, w).

(** [np.random.choice(a)]: ValueError on an empty array, else one draw
    picks a position. *)
Definition np_random_choice (a : list Z) : M Z := λ w,
  match a with
  | [] => (inl ValueError, w)
  | _ :: _ =>
      (inr (nth (entropy w (drawn w) `mod` length a) a 0%Z),
       World (self w) (entropy w) (S (drawn w)))
  end.

(** ** numpy index helpers *)

Fixpoint where_from (i : Z) (mask : list bool) : list Z :=
  match mask with
  | [] => []
  | b :: mask' =>
      if b then i :: where_from (i + 1) mask' else where_from (i + 1) mask'
  end.

(** [np.where(mask)[0]] *)
Definition np_where (mask : list bool) : list Z := where_from 0 mask.

Fixpoint delete_from (k : Z) (arr : list Z) (obj : list Z) : list Z :=
  match arr with
  | [] => []
  | x :: arr' =>
      if existsb (Z.eqb k) obj then delete_from (k + 1) arr' obj
      else x :: delete_from (k + 1) arr' obj
  end.

(** [np.delete(arr, obj)] for positions [obj] that are in range, as
    those returned by [np.where] on [arr] are: [keep[obj] = False;
    arr[keep]]. *)
Definition np_delete (arr obj : list Z) : list Z := delete_from 0 arr obj.

(** ** Resilient Image Reader and Triplet Sampler *)

Section Sampler.

Variable fs : node.
(** The element cast of [torch.tensor(image, dtype=torch.float32)]. *)
Variable float32 : px → px.

(** Lines 132-144: the [while io_result is False] loop.  [io_idx] is the
    value on entry of the iteration. *)
Fixpoint read_image_loop (fuel : nat) (image_path : path) (io_idx : Z)
    : result pil_image :=
  match fuel with
  | O => inl FuelExhausted
  | S fuel' =>
      match Image_open fs image_path with
      | Some image => inr image
      | None =>
          let io_idx := (io_idx - 1)%Z in
          let folder := parent image_path in
          let files := glob fs star folder in
          image_path' ← index_or_raise files io_idx;
          read_image_loop fuel' image_path' io_idx
      end
  end.

Definition probe_fuel (image_path : path) : nat :=
  S (length (glob fs star (parent image_path))).

Definition read_image (idx : Z) : M ndarray :=
  ds ← get_self;
  image_path ← lift (index_or_raise (image_path_list ds) idx);
  image ← lift (read_image_loop (probe_fuel image_path) image_path (-1));
  lift (image ← np_array image; first3 image).

Definition convert_to_tensor (image : ndarray) : result ndarray :=
  image ← transpose201 image;
  inr (astype float32 image).

(** [label_arr == anchor_label]: the elements of the array against the
    scalar, which is compared as an array element too. *)
Definition np_equal (label_arr : list string) (anchor_label : string)
    : list bool :=
  map (λ l, String.eqb l (np_str anchor_label)) label_arr.

(** Lines 26-33 of [__getitem__]: the two index draws. *)
Definition pos_candidates (labels : list string) (idx : Z)
    (anchor_label : string) : list Z :=
  let label_arr := np_asarray labels in
  let pos_indices := np_where (np_equal label_arr anchor_label) in
  np_delete pos_indices (np_where (map (λ p, Z.eqb p idx) pos_indices)).

Definition neg_candidates (labels : list string) (anchor_label : string)
    : list Z :=
  let label_arr := np_asarray labels in
  np_where (map negb (np_equal label_arr anchor_label)).

Definition draw_indices (idx : Z) : M (Z * Z) :=
  ds ← get_self;
  anchor_label ← lift (index_or_raise (label_list ds) idx);
  let pos_indices := pos_candidates (label_list ds) idx anchor_label in
  let neg_indices := neg_candidates (label_list ds) anchor_label in
  pos_idx ← np_random_choice pos_indices;
  neg_idx ← np_random_choice neg_indices;
  mret (pos_idx, neg_idx).

(** Lines 41-44: [if self.transform: ...] *)
Definition augment (image : ndarray) : M ndarray :=
  ds ← get_self;
  match transform ds with
  | Some t => lift (t image)
  | None => mret image
  end.

(** Lines 36-51: what [__getitem__] does once the indices are drawn. *)
Definition fetch_triplet (idx pos_idx neg_idx : Z)
    : M (ndarray * ndarray * ndarray) :=
  anchor_img ← read_image idx;
  pos_img ← read_image pos_idx;
  neg_img ← read_image neg_idx;
  anchor_img ← augment anchor_img;
  pos_img ← augment pos_img;
  neg_img ← augment neg_img;
  anchor_img ← lift (convert_to_tensor anchor_img);
  pos_img ← lift (convert_to_tensor pos_img);
  neg_img ← lift (convert_to_tensor neg_img);
  mret (anchor_img, pos_img, neg_img).

Definition __getitem__ (idx : Z) : M (ndarray * ndarray * ndarray) :=
  '(pos_idx, neg_idx) ← draw_indices idx;
  fetch_triplet idx pos_idx neg_idx.

End Sampler.

End Dataset.

(** ** The attempts the loops of [read_paths] process

    The nested loops with their [continue] and [break] are flattened
    into the list of writer-attempt pairs whose body runs, in order.
    [read_paths_attempts] proves that [read_paths] is [run_attempts] over
    that list followed by the final length check. *)

(** ["모사" in str(img_tf.parts[-1])] *)
Definition name_traced (p : path) : bool :=
  from_option traced false (py_index p (-1)).

Fixpoint kept_tf (sanity : option bool) (train : bool) (i_tf : nat)
    (zipped : list (path * path)) : list (path * path) :=
  match zipped with
  | [] => []
  | x :: rest =>
      if name_traced x.1 then kept_tf sanity train (S i_tf) rest
      else x :: (if do_break sanity train i_tf then []
                 else kept_tf sanity train (S i_tf) rest)
  end.

Fixpoint kept_sen (sanity : option bool) (train : bool) (i_sen : nat)
    (zipped : list (path * path)) : list (path * path) :=
  match zipped with
  | [] => []
  | x :: rest =>
      x :: (if do_break sanity train i_sen then []
            else kept_sen sanity train (S i_sen) rest)
  end.

Definition sentence_pairs {px} (fs : @node px) (train : bool) (root : path)
    : list (path * path) :=
  zip (glob fs star (image_p root train)) (glob fs star (label_p root train)).

Definition attempt_pairs {px} (fs : @node px) (s : path * path)
    : list (path * path) :=
  zip (glob fs star s.1) (glob fs star s.2).

Definition attempts {px} (fs : @node px) (train : bool) (sanity : option bool)
    (root : path) : list (path * path) :=
  concat (map (λ s, kept_tf sanity train 0 (attempt_pairs fs s))
              (kept_sen sanity train 0 (sentence_pairs fs train root))).

Fixpoint run_attempts {px} (fs : @node px) (l : list (path * path)) (a : acc)
    : result acc :=
  match l with
  | [] => inr a
  | x :: rest => a' ← attempt fs x.1 x.2 a; run_attempts fs rest a'
  end.

(** What one attempt appends to the two lists. *)
Definition contribution {px} (fs : @node px) (x : path * path) : result acc :=
  attempt fs x.1 x.2 ([], []).

(** An image sub-subfolder without a file matching ["*_0150_x*"]. *)
Definition no_canonical {px} (fs : @node px) (img_pos : path) : Prop :=
  glob fs canonical img_pos = [].

(** ** The probing order of [read_image], in closed form *)

(** The image of the first candidate that [Image.open] accepts,
    IndexError when there is none. *)
Fixpoint first_opened {px} (fs : @node px) (candidates : list path)
    : result pil_image :=
  match candidates with
  | [] => inl IndexError
  | c :: rest =>
      match Image_open fs c with
      | Some image => inr image
      | None => first_opened fs rest
      end
  end.

(** The candidates [files[-2]], [files[-3]], ... down to [files[0]]. *)
Definition probes {px} (fs : @node px) (image_path : path) : list path :=
  tail (reverse (glob fs star (parent image_path))).

(** [Image.open] and the decode in one step, as the specification
    speaks of decoding. *)
Definition decode {px} (fs : @node px) (p : path) : option ndarray :=
  match Image_open fs p with
  | Some (PIL (Some a)) => Some a
  | _ => None
  end.

Fixpoint first_decoded {px} (fs : @node px) (candidates : list path)
    : result ndarray :=
  match candidates with
  | [] => inl IndexError
  | c :: rest =>
      match decode fs c with
      | Some a => inr a
      | None => first_decoded fs rest
      end
  end.

(** Follows the specification's wording, for comparison with
    [read_image]: on a decode failure step back from the position of the
    recorded file in its directory's listing. *)
Definition preceding {px} (fs : @node px) (image_path : path) : list path :=
  let files := glob fs star (parent image_path) in
  match list_find (λ f, f = image_path) files with
  | Some (k, _) => reverse (take k files)
  | None => []
  end.

Definition read_image_preceding {px} (fs : @node px) (image_path : path)
    : result ndarray :=
  image ← match decode fs image_path with
          | Some a => inr a
          | None => first_decoded fs (preceding fs image_path)
          end;
  first3 image.

(** ** Sample corpora *)

Module Samples.

Definition pixel_of (v : Z) (c : nat) : @ndarray Z := Arr3 1 1 c (λ _ _ _, v).

(** A variant sub-subfolder with two frames, the canonical one last. *)
Definition img_variant (name : string) : string * @node Z :=
  (name, Dir [("w_0149_x1.png", File (Pixels (pixel_of 1 4)));
              ("w_0150_x1.png", File (Pixels (pixel_of 2 4)))]).

Definition lab_variant (id name : string) : string * @node Z :=
  (name, Dir [("labels(sent1).json", File (PersonId id))]).

Definition img_attempt (name : string) (variants : list string)
    : string * @node Z :=
  (name, Dir (map img_variant variants)).

Definition lab_attempt (name id : string) (variants : list string)
    : string * @node Z :=
  (name, Dir (map (lab_variant id) variants)).

Definition corpus (imgs labs : list (string * @node Z)) : @node Z :=
  Dir [("Training",
        Dir [("01.원천데이터", Dir [("TS_images", Dir imgs)]);
             ("02.라벨링데이터", Dir [("TL_labels", Dir labs)])])].

Definition v3 : list string := ["v0"; "v1"; "v2"].

(** 2 sentence groups, 2 writer-attempts each, 3 variants each. *)
Definition root_2x2x3 : @node Z :=
  corpus
    [("s0", Dir [img_attempt "w0" v3; img_attempt "w1" v3]);
     ("s1", Dir [img_attempt "w0" v3; img_attempt "w1" v3])]
    [("s0", Dir [lab_attempt "w0" "id0" v3; lab_attempt "w1" "id1" v3]);
     ("s1", Dir [lab_attempt "w0" "id0" v3; lab_attempt "w1" "id1" v3])].

(** One sentence group: a traced attempt whose image side has 3 variants
    and whose label side has 1, and a regular attempt. *)
Definition root_traced_mismatch : @node Z :=
  corpus
    [("s0", Dir [img_attempt "w0_모사" v3; img_attempt "w1" v3])]
    [("s0", Dir [lab_attempt "w0_모사" "id0" ["v0"];
                 lab_attempt "w1" "id1" v3])].


(** A variant sub-subfolder that lacks the canonical frame. *)
Definition root_no_canonical : @node Z :=
  corpus
    [("s0", Dir [("w0", Dir [img_variant "v0";
                             ("v1", Dir [("w_0149_x1.png",
                                          File (Pixels (pixel_of 1 4)))])])])]
    [("s0", Dir [lab_attempt "w0" "id0" ["v0"; "v1"]])].

(** A directory whose canonical frame is unreadable and is neither first
    nor last in the listing. *)
Definition root_probe : @node Z :=
  Dir [("d", Dir [("a.png", File (Pixels (pixel_of 10 4)));
                  ("w_0150_x1.png", File Unreadable);
                  ("c.png", File (Pixels (pixel_of 30 3)));
                  ("z.png", File (Pixels (pixel_of 40 4)))])].

Definition sample_of (paths : list path) (labels : list string)
    : @dataset Z :=
  Dataset [] None true None paths labels (label_to_integer labels).

Definition world_of (ds : @dataset Z) : @world Z := World ds (λ n, n) 0.

Definition ds_probe : @dataset Z := sample_of [["d"; "w_0150_x1.png"]] ["id0"].

Definition ds_aba : @dataset Z := sample_of [] ["a"; "b"; "a"].

Definition ds_ab : @dataset Z := sample_of [] ["a"; "b"].

End Samples.

(** ** Orders on writer-ids *)

(** The order numpy sorts strings by: code point by code point, which on
    UTF-8 encoded strings is byte by byte. *)
Definition str_le (a b : string) : Prop := String.leb a b = true.
Definition str_lt (a b : string) : Prop := String.ltb a b = true.

(** ** Frame condition of the sampler monad *)

(** A computation that leaves the dataset object as it found it. *)
Definition keeps_self {px A} (m : @M px A) : Prop :=
  ∀ w, self (m w).2 = self w.

(** The number of entries of [labels] equal to [a]. *)
Definition occurrences (labels : list string) (a : string) : nat :=
  length (List.filter (λ l, String.eqb l a) labels).

(** The number of entries of [labels] that numpy finds equal to [a]. *)
Definition np_occurrences (labels : list string) (a : string) : nat :=
  length (List.filter (λ l, String.eqb l (np_str a)) (np_asarray labels)).

(** No writer-id ends in a NUL character. *)
Definition nul_free (labels : list string) : Prop :=
  Forall (λ l, np_str l = l) labels.

(** What an attempt adds when its body completes, nothing otherwise. *)
Definition contributed {px} (fs : @node px) (x : path * path) : acc :=
  match contribution fs x with
  | inr c => c
  | inl _ => ([], [])
  end.

Definition completes {px} (fs : @node px) (x : path * path) : Prop :=
  ∃ c, contribution fs x = inr c.

(** ** Paths into the sample corpora *)

Module SamplePaths.

Definition images : path := ["Training"; "01.원천데이터"; "TS_images"].
Definition labels : path := ["Training"; "02.라벨링데이터"; "TL_labels"].

(** The writer-attempt pair [name] of sentence group [s0]. *)
Definition tf (name : string) : path * path :=
  (images ++ ["s0"; name], labels ++ ["s0"; name]).

Definition variant (x : path * path) (v : string) : path * path :=
  (x.1 ++ [v], x.2 ++ [v]).

End SamplePaths.

(** The loop index at which the sanity cut-off breaks. *)
Definition cutoff (train : bool) : nat := if train then 3%nat else 1%nat.

(** Neither loop of [read_paths] goes past its cut-off index on a corpus
    this small. *)
Definition below_cutoff {px} (fs : @node px) (train : bool) (root : path)
    : Prop :=
  length (sentence_pairs fs train root) ≤ S (cutoff train) ∧
  Forall (λ s, length (attempt_pairs fs s) ≤ S (cutoff train))
         (sentence_pairs fs train root).

(** ** Further sample data *)

Module EdgeSamples.

(** Two samples of one writer. *)
Definition ds_aa : @dataset Z := Samples.sample_of [] ["a"; "a"].

(** An unreadable canonical frame alone in its directory. *)
Definition root_lonely : @node Z :=
  Dir [("d", Dir [("w_0150_x1.png", File Unreadable)])].

Definition ds_lonely : @dataset Z :=
  Samples.sample_of [["d"; "w_0150_x1.png"]] ["id0"].

(** A writer-attempt without sub-subfolders on either side. *)
Definition root_empty_attempt : @node Z :=
  Samples.corpus [("s0", Dir [("w0", Dir [])])] [("s0", Dir [("w0", Dir [])])].

(** A writer-attempt whose first label sub-subfolder has no label file. *)
Definition root_no_label : @node Z :=
  Samples.corpus
    [("s0", Dir [Samples.img_attempt "w0" ["v0"]])]
    [("s0", Dir [("w0", Dir [("v0", Dir [])])])].

(** Five writer-attempts in one group, the one at index 3 traced. *)
Definition root_traced_at_cutoff : @node Z :=
  Samples.corpus
    [("s0", Dir [Samples.img_attempt "w0" ["v0"];
                 Samples.img_attempt "w1" ["v0"];
                 Samples.img_attempt "w2" ["v0"];
                 Samples.img_attempt "w3_모사" ["v0"];
                 Samples.img_attempt "w4" ["v0"]])]
    [("s0", Dir [Samples.lab_attempt "w0" "id0" ["v0"];
                 Samples.lab_attempt "w1" "id1" ["v0"];
                 Samples.lab_attempt "w2" "id2" ["v0"];
                 Samples.lab_attempt "w3_모사" "id3" ["v0"];
                 Samples.lab_attempt "w4" "id4" ["v0"]])].

(** The same with no traced attempt. *)
Definition root_five_attempts : @node Z :=
  Samples.corpus
    [("s0", Dir [Samples.img_attempt "w0" ["v0"];
                 Samples.img_attempt "w1" ["v0"];
                 Samples.img_attempt "w2" ["v0"];
                 Samples.img_attempt "w3" ["v0"];
                 Samples.img_attempt "w4" ["v0"]])]
    [("s0", Dir [Samples.lab_attempt "w0" "id0" ["v0"];
                 Samples.lab_attempt "w1" "id1" ["v0"];
                 Samples.lab_attempt "w2" "id2" ["v0"];
                 Samples.lab_attempt "w3" "id3" ["v0"];
                 Samples.lab_attempt "w4" "id4" ["v0"]])].

End EdgeSamples.

(** Three readable samples of two writers in the directory of
    [Samples.root_probe]. *)
Definition ds_triplet : @dataset Z :=
  Samples.sample_of [["d"; "a.png"]; ["d"; "c.png"]; ["d"; "z.png"]]
                    ["a"; "b"; "a"].

(** ** Sample data with NUL-terminated ids and truncated images *)

Module NulSamples.

(** The id ["a"] followed by one NUL character. *)
Definition a_nul : string := String.append "a" (String Ascii.zero EmptyString).

Definition probe_paths : list path :=
  [["d"; "a.png"]; ["d"; "c.png"]; ["d"; "z.png"]; ["d"; "a.png"]].

Definition ds_nul3 : @dataset Z :=
  Samples.sample_of (take 3 probe_paths) [a_nul; "a"; "b"].

Definition ds_nul4 : @dataset Z :=
  Samples.sample_of probe_paths [a_nul; "a"; "a"; "b"].



Definition group (name id : string) : (string * @node Z) * (string * @node Z) :=
  ((name, Dir [Samples.img_attempt "w0" ["v0"]]),
   (name, Dir [Samples.lab_attempt "w0" id ["v0"]])).

(** Five sentence groups of one writer-attempt each. *)
Definition root_five_groups : @node Z :=
  Samples.corpus
    (map (λ n, (group n n).1) ["s0"; "s1"; "s2"; "s3"; "s4"])
    (map (λ n, (group n n).2) ["s0"; "s1"; "s2"; "s3"; "s4"]).

End NulSamples.

(** ** When the sanity cut-off removes a processed writer-attempt *)

(** A sentence group past the cut-off index holds a writer-attempt pair
    that is not traced. *)
Definition group_cut_off {px} (fs : @node px) (train : bool) (root : path)
    : Prop :=
  ∃ pre s post x,
    sentence_pairs fs train root = pre ++ s :: post ∧
    S (cutoff train) ≤ length pre ∧
    x ∈ attempt_pairs fs s ∧ name_traced x.1 = false.

(** A sentence group up to the cut-off index has a writer-attempt pair at
    the cut-off index that is not traced, and a later one that is not
    traced either. *)
Definition attempt_cut_off {px} (fs : @node px) (train : bool) (root : path)
    : Prop :=
  ∃ pre s post zpre x zpost y,
    sentence_pairs fs train root = pre ++ s :: post ∧
    length pre ≤ cutoff train ∧
    attempt_pairs fs s = zpre ++ x :: zpost ∧
    length zpre = cutoff train ∧ name_traced x.1 = false ∧
    y ∈ zpost ∧ name_traced y.1 = false.

(** ** A corpus whose image and label trees name a writer-attempt apart *)

Module MismatchSamples.



End MismatchSamples.

(** * Properties *)

(** ** Python indexing *)

Lemma py_index_nonneg {A} (l : list A) (i : Z) :
  (0 ≤ i)%Z → py_index l i = l !! Z.to_nat i.
Proof.
  intros Hi. unfold py_index.
  destruct (Z.leb_spec 0 i); [done | lia].
Qed.

Lemma py_index_neg {A} (l : list A) (j : nat) :
  py_index l (- Z.of_nat (S j)) = reverse l !! j.
Proof.
  unfold py_index.
  destruct (Z.leb_spec 0 (- Z.of_nat (S j))); [lia |].
  destruct (Z.leb_spec (- Z.of_nat (length l)) (- Z.of_nat (S j))).
  - rewrite reverse_lookup by lia. f_equal. lia.
  - symmetry. apply lookup_ge_None_2. rewrite length_reverse. lia.
Qed.

Lemma py_index_Some_lookup {A} (l : list A) (i : Z) (a : A) :
  py_index l i = Some a → ∃ n : nat, l !! n = Some a.
Proof.
  unfold py_index. repeat case_match; eauto. done.
Qed.

Lemma py_index_last {A} (l : list A) (x : A) (i : nat) :
  py_index (l ++ [x]) (- Z.of_nat (S (S i))) = py_index l (- Z.of_nat (S i)).
Proof. by rewrite !py_index_neg, reverse_snoc. Qed.

Lemma py_index_snoc {A} (l : list A) (x : A) :
  py_index (l ++ [x]) (-1) = Some x.
Proof.
  change (-1)%Z with (- Z.of_nat 1)%Z. by rewrite py_index_neg, reverse_snoc.
Qed.

Lemma index_or_raise_inr {A} (l : list A) (i : Z) (a : A) :
  index_or_raise l i = inr a ↔ py_index l i = Some a.
Proof. unfold index_or_raise. case_match; naive_solver. Qed.

Lemma index_or_raise_0 {A} (l : list A) :
  index_or_raise l 0 = match l with [] => inl IndexError | x :: _ => inr x end.
Proof. by destruct l. Qed.

(** ** The order on writer-ids *)

Lemma ascii_compare_lt_trans (a b c : Ascii.ascii) :
  Ascii.compare a b = Lt → Ascii.compare b c = Lt → Ascii.compare a c = Lt.
Proof.
  unfold Ascii.compare. rewrite !N.compare_lt_iff. lia.
Qed.

Lemma string_compare_refl (s : string) : String.compare s s = Eq.
Proof.
  induction s as [|a s IH]; simpl; [done |].
  unfold Ascii.compare. by rewrite N.compare_refl.
Qed.

Lemma string_compare_lt_trans (s1 s2 s3 : string) :
  String.compare s1 s2 = Lt → String.compare s2 s3 = Lt →
  String.compare s1 s3 = Lt.
Proof.
  revert s2 s3. induction s1 as [|a s1 IH]; intros [|b s2] [|c s3]; simpl;
    try done.
  destruct (Ascii.compare a b) eqn:Hab; try done;
    destruct (Ascii.compare b c) eqn:Hbc; try done; intros H12 H23.
  - apply Ascii.compare_eq_iff in Hab, Hbc. subst.
    unfold Ascii.compare. rewrite N.compare_refl. eauto.
  - apply Ascii.compare_eq_iff in Hab. subst. by rewrite Hbc.
  - apply Ascii.compare_eq_iff in Hbc. subst. by rewrite Hab.
  - by rewrite (ascii_compare_lt_trans a b c).
Qed.

Lemma str_le_lt_eq (a b : string) : str_le a b ↔ str_lt a b ∨ a = b.
Proof.
  unfold str_le, str_lt, String.leb, String.ltb. split.
  - destruct (String.compare a b) eqn:H; try done; [| by left].
    right. by apply String.compare_eq_iff.
  - intros [H | ->]; [by destruct (String.compare a b) |].
    by rewrite string_compare_refl.
Qed.

Lemma str_lt_irrefl (a : string) : ¬ str_lt a a.
Proof. unfold str_lt, String.ltb. by rewrite string_compare_refl. Qed.

#[export] Instance str_lt_trans : Transitive str_lt.
Proof.
  intros a b c. unfold str_lt, String.ltb.
  destruct (String.compare a b) eqn:Hab; try done.
  destruct (String.compare b c) eqn:Hbc; try done.
  by rewrite (string_compare_lt_trans a b c).
Qed.

#[export] Instance str_le_trans : Transitive str_le.
Proof.
  intros a b c. rewrite !str_le_lt_eq.
  intros [H1 | ->] [H2 | ->]; eauto. left. by etrans.
Qed.

Lemma str_le_total (a b : string) : str_le a b ∨ str_le b a.
Proof. apply String.leb_total. Qed.

Lemma not_str_le (a b : string) : String.leb a b = false → str_le b a.
Proof.
  intros H. destruct (str_le_total a b) as [H' | H']; [| done].
  unfold str_le in H'. congruence.
Qed.

Lemma str_lt_le_trans (a b c : string) : str_lt a b → str_le b c → str_lt a c.
Proof. rewrite str_le_lt_eq. intros H [H' | <-]; [by etrans | done]. Qed.

(** ** [np.unique] *)

Lemma elem_of_insert_sorted (x y : string) (l : list string) :
  y ∈ insert_sorted x l ↔ y = x ∨ y ∈ l.
Proof.
  induction l as [|z l IH]; simpl.
  - rewrite list_elem_of_singleton, elem_of_nil. tauto.
  - destruct (String.leb x z); rewrite !elem_of_cons, ?IH; naive_solver.
Qed.

Lemma insert_sorted_sorted (x : string) (l : list string) :
  StronglySorted str_le l → StronglySorted str_le (insert_sorted x l).
Proof.
  induction 1 as [|z l Hl IH Hz]; simpl.
  - repeat constructor.
  - destruct (String.leb x z) eqn:Hxz.
    + constructor; [by constructor |].
      constructor; [done |].
      eapply Forall_impl; [exact Hz |]. intros w Hw. by etrans.
    + constructor; [done |].
      apply Forall_forall. intros w Hw.
      apply elem_of_insert_sorted in Hw as [-> | Hw].
      * by apply not_str_le.
      * by eapply Forall_forall in Hz.
Qed.

Lemma elem_of_np_sort (x : string) (l : list string) : x ∈ np_sort l ↔ x ∈ l.
Proof.
  induction l as [|y l IH]; simpl; [done |].
  rewrite elem_of_insert_sorted. set_solver.
Qed.

Lemma np_sort_sorted (l : list string) : StronglySorted str_le (np_sort l).
Proof.
  induction l; simpl; [constructor | by apply insert_sorted_sorted].
Qed.

Lemma keep_changes_spec (x : string) (r : list string) :
  StronglySorted str_le (x :: r) →
  StronglySorted str_lt (x :: keep_changes x r) ∧
  ∀ y, y ∈ x :: keep_changes x r ↔ y ∈ x :: r.
Proof.
  revert x. induction r as [|y r IH]; intros x Hs; simpl.
  - split; [repeat constructor | done].
  - apply StronglySorted_inv in Hs as [Hs Hx].
    destruct (IH y Hs) as [IH1 IH2].
    destruct (String.eqb_spec y x) as [-> | Hne]; [split; [done | set_solver] |].
    assert (str_lt x y) as Hxy.
    { apply Forall_cons in Hx as [Hx _].
      apply str_le_lt_eq in Hx as [Hx | Hx]; [done | congruence]. }
    split; [| set_solver].
    constructor; [done |].
    apply Forall_forall. intros z Hz. apply IH2 in Hz.
    apply StronglySorted_inv in Hs as [_ Hy].
    apply elem_of_cons in Hz as [-> | Hz]; [done |].
    eapply str_lt_le_trans; [done |]. by eapply Forall_forall in Hy.
Qed.

Lemma unique1d_sorted (l : list string) : StronglySorted str_lt (unique1d l).
Proof.
  unfold unique1d. pose proof (np_sort_sorted l) as Hs.
  destruct (np_sort l) as [|x r]; [constructor |].
  by apply keep_changes_spec.
Qed.

Lemma elem_of_unique1d (x : string) (l : list string) :
  x ∈ unique1d l ↔ x ∈ l.
Proof.
  rewrite <- (elem_of_np_sort x l). unfold unique1d.
  pose proof (np_sort_sorted l) as Hs.
  destruct (np_sort l) as [|y r]; [tauto |].
  by apply keep_changes_spec.
Qed.

(** ** Strings in numpy arrays *)

Lemma np_str_idem (s : string) : np_str (np_str s) = np_str s.
Proof.
  induction s as [|c s IH]; simpl; [done |].
  destruct (np_str s) as [|d r] eqn:Hr.
  - destruct (Ascii.eqb c Ascii.zero) eqn:Hc; simpl; [done |].
    by rewrite Hc.
  - simpl in *. by rewrite IH.
Qed.

Lemma elem_of_np_asarray (x : string) (labels : list string) :
  x ∈ np_asarray labels ↔ ∃ l, l ∈ labels ∧ x = np_str l.
Proof.
  unfold np_asarray. rewrite list_elem_of_In, in_map_iff. split.
  - intros (l & <- & Hl). exists l. by rewrite list_elem_of_In.
  - intros (l & Hl & ->). exists l. by rewrite <- list_elem_of_In.
Qed.

Lemma np_asarray_nul_free (labels : list string) :
  nul_free labels → np_asarray labels = labels.
Proof.
  unfold np_asarray. induction 1 as [|l labels Hl _ IH]; simpl; [done |].
  by rewrite Hl, IH.
Qed.

Lemma np_unique_sorted (l : list string) : StronglySorted str_lt (np_unique l).
Proof. apply unique1d_sorted. Qed.

Lemma elem_of_np_unique (x : string) (l : list string) :
  x ∈ np_unique l ↔ x ∈ np_asarray l.
Proof. apply elem_of_unique1d. Qed.

Lemma np_unique_stored (x : string) (l : list string) :
  x ∈ np_unique l → np_str x = x.
Proof.
  intros (y & _ & ->)%elem_of_np_unique%elem_of_np_asarray.
  apply np_str_idem.
Qed.

Lemma strictly_sorted_NoDup (l : list string) :
  StronglySorted str_lt l → NoDup l.
Proof.
  induction 1 as [|x l Hl IH Hx]; constructor; [| done].
  intros Hin. eapply Forall_forall in Hx; [| done].
  by apply str_lt_irrefl in Hx.
Qed.

(** ** [label_to_integer] *)

Lemma assign_other (start : nat) (u : list string) (m : gmap string string)
    (k : string) :
  k ∉ u → foldl assign m (enumerate_from start u) !! k = m !! k.
Proof.
  revert start m. induction u as [|x u IH]; intros start m Hk; simpl; [done |].
  apply not_elem_of_cons in Hk as [Hne Hk].
  rewrite IH by done. unfold assign. simpl. by rewrite lookup_insert_ne.
Qed.

Lemma assign_at (start : nat) (u : list string) (m : gmap string string)
    (i : nat) (k : string) :
  NoDup u → u !! i = Some k →
  foldl assign m (enumerate_from start u) !! k = Some (str (start + i)).
Proof.
  revert start m i. induction u as [|x u IH]; intros start m i Hnd Hi; [done |].
  apply NoDup_cons in Hnd as [Hx Hnd]. destruct i as [|i]; simpl in *.
  - injection Hi as ->. rewrite assign_other by done.
    unfold assign. simpl. rewrite lookup_insert_eq. do 2 f_equal. lia.
  - rewrite (IH (S start) _ i) by done. do 2 f_equal. lia.
Qed.

Lemma label_to_integer_lookup (labels : list string) (k v : string) :
  label_to_integer labels !! k = Some v ↔
  ∃ i, np_unique labels !! i = Some k ∧ v = str i.
Proof.
  pose proof (strictly_sorted_NoDup _ (np_unique_sorted labels)) as Hnd.
  unfold label_to_integer, enumerate. split.
  - intros Hkv. destruct (decide (k ∈ np_unique labels)) as [Hin | Hout].
    + apply list_elem_of_lookup in Hin as [i Hi]. exists i. split; [done |].
      rewrite (assign_at 0 _ _ i k) in Hkv by done. by injection Hkv.
    + by rewrite assign_other, lookup_empty in Hkv.
  - intros (i & Hi & ->). by rewrite (assign_at 0 _ _ i k).
Qed.

Lemma label_to_integer_dom (labels : list string) (k : string) :
  k ∈ dom (label_to_integer labels) ↔ k ∈ np_asarray labels.
Proof.
  rewrite elem_of_dom, <- elem_of_np_unique. split.
  - intros [v Hv]. apply label_to_integer_lookup in Hv as (i & Hi & _).
    by eapply list_elem_of_lookup_2.
  - intros Hin. apply list_elem_of_lookup in Hin as [i Hi].
    exists (str i). apply label_to_integer_lookup. eauto.
Qed.

(** C7, as the code has it.  The keys of the map [label_to_integer]
    returns are exactly the distinct writer-ids as numpy stores them, that
    is with their trailing NUL characters dropped; the values are the
    decimal strings of 0, 1, 2, ... handed out along those ids in strictly
    ascending order; an empty input gives the empty map.  When no
    writer-id ends in a NUL the keys are exactly the distinct writer-ids
    of the input.  (Being a function of the list, it is
    deterministic.) *)
Theorem label_to_integer_codes (labels : list string) :
  StronglySorted str_lt (np_unique labels) ∧
  (∀ k, k ∈ np_unique labels ↔ ∃ l, l ∈ labels ∧ k = np_str l) ∧
  (∀ k, k ∈ dom (label_to_integer labels) ↔ ∃ l, l ∈ labels ∧ k = np_str l) ∧
  (∀ k v, label_to_integer labels !! k = Some v ↔
          ∃ i, np_unique labels !! i = Some k ∧ v = str i) ∧
  label_to_integer [] = ∅ ∧
  (nul_free labels →
   (∀ k, k ∈ np_unique labels ↔ k ∈ labels) ∧
   (∀ k, k ∈ dom (label_to_integer labels) ↔ k ∈ labels)).
Proof.
  split_and!.
  - apply np_unique_sorted.
  - intros k. by rewrite elem_of_np_unique, elem_of_np_asarray.
  - intros k. by rewrite label_to_integer_dom, elem_of_np_asarray.
  - apply label_to_integer_lookup.
  - done.
  - intros Hfree. split; intros k.
    + by rewrite elem_of_np_unique, np_asarray_nul_free.
    + by rewrite label_to_integer_dom, np_asarray_nul_free.
Qed.

Lemma label_to_integer_codes_witness :
  (∀ k, k ∈ dom (label_to_integer ["b"; "a"; "c"; "a"; "b"])
        ↔ k ∈ ["b"; "a"; "c"; "a"; "b"]) ∧
  label_to_integer ["b"; "a"; "c"; "a"; "b"] !! "c" = Some "2" ∧
  np_unique ["b"; "a"; "c"; "a"; "b"] = ["a"; "b"; "c"].
Proof.
  pose proof (label_to_integer_codes ["b"; "a"; "c"; "a"; "b"])
    as (_ & _ & _ & Hlk & _ & Hfree).
  split_and!; [| | reflexivity].
  - apply Hfree. repeat constructor.
  - apply Hlk. exists 2%nat. split; reflexivity.
Defined.

(** C7, counterexample.  Of the ids a-NUL, a, b the first is no key of
    the map: numpy stores it as a, and the map is a -> 0, b -> 1. *)
Lemma label_to_integer_nul_counterexample :
  NulSamples.a_nul ∈ [NulSamples.a_nul; "a"; "b"] ∧
  label_to_integer [NulSamples.a_nul; "a"; "b"] !! NulSamples.a_nul = None ∧
  (NulSamples.a_nul ∉ dom (label_to_integer [NulSamples.a_nul; "a"; "b"])) ∧
  label_to_integer [NulSamples.a_nul; "a"; "b"] !! "a" = Some "0" ∧
  label_to_integer [NulSamples.a_nul; "a"; "b"] !! "b" = Some "1".
Proof.
  assert (label_to_integer [NulSamples.a_nul; "a"; "b"] !! NulSamples.a_nul
          = None) as Hnone.
  { destruct (label_to_integer _ !! NulSamples.a_nul) as [v|] eqn:Hv;
      [| done].
    apply label_to_integer_lookup in Hv as (i & Hi & _).
    apply list_elem_of_lookup_2, np_unique_stored in Hi. discriminate Hi. }
  split_and!; [left | done | | |].
  - by apply not_elem_of_dom.
  - apply label_to_integer_lookup. exists 0. split; reflexivity.
  - apply label_to_integer_lookup. exists 1. split; reflexivity.
Qed.

(** ** numpy index helpers *)

Lemma elem_of_List_filter {A} (f : A → bool) (l : list A) (x : A) :
  x ∈ List.filter f l ↔ f x = true ∧ x ∈ l.
Proof. rewrite !list_elem_of_In, filter_In. tauto. Qed.

Lemma existsb_eqb_elem_of (k : Z) (obj : list Z) :
  existsb (Z.eqb k) obj = true ↔ k ∈ obj.
Proof.
  rewrite existsb_exists, list_elem_of_In. split.
  - intros (x & Hx & Heq). apply Z.eqb_eq in Heq. by subst.
  - intros Hk. exists k. by rewrite Z.eqb_refl.
Qed.

Lemma lookup_map {A B} (f : A → B) (l : list A) (i : nat) :
  map f l !! i = f <$> l !! i.
Proof. apply (list_lookup_fmap f l i). Qed.

Lemma elem_of_where_from (k i : Z) (mask : list bool) :
  k ∈ where_from i mask ↔
  ∃ n : nat, k = (i + Z.of_nat n)%Z ∧ mask !! n = Some true.
Proof.
  revert i. induction mask as [|b mask IH]; intros i; simpl.
  - rewrite elem_of_nil. naive_solver.
  - assert (k ∈ where_from (i + 1) mask ↔
            ∃ n : nat, k = (i + Z.of_nat (S n))%Z ∧ mask !! n = Some true)
      as IH'.
    { rewrite IH. split; intros (n & -> & Hn); exists n; split; (lia || done). }
    destruct b; rewrite ?elem_of_cons, IH'; split.
    + intros [-> | (n & -> & Hn)]; [exists 0%nat | exists (S n)];
        split; (lia || done).
    + intros ([|n] & -> & Hn); [left; lia | right; eauto].
    + intros (n & -> & Hn). by exists (S n).
    + intros ([|n] & -> & Hn); [done | eauto].
Qed.

Lemma where_from_length {A} (f : A → bool) (i : Z) (l : list A) :
  length (where_from i (map f l)) = length (List.filter f l).
Proof.
  revert i. induction l as [|x l IH]; intros i; simpl; [done |].
  destruct (f x); simpl; by rewrite IH.
Qed.

Lemma where_from_NoDup (i : Z) (mask : list bool) : NoDup (where_from i mask).
Proof.
  revert i. induction mask as [|b mask IH]; intros i; simpl; [constructor |].
  destruct b; [| done]. constructor; [| done].
  rewrite elem_of_where_from. intros (n & Hn & _). lia.
Qed.

Lemma delete_from_where (f : Z → bool) (k0 : Z) (pre suf : list Z) :
  delete_from (k0 + Z.of_nat (length pre)) suf
              (where_from k0 (map f (pre ++ suf)))
  = List.filter (λ x, negb (f x)) suf.
Proof.
  revert pre. induction suf as [|x suf IH]; intros pre; simpl; [done |].
  assert (existsb (Z.eqb (k0 + Z.of_nat (length pre)))
                  (where_from k0 (map f (pre ++ x :: suf))) = f x) as ->.
  { apply eq_true_iff_eq. rewrite existsb_eqb_elem_of, elem_of_where_from.
    split.
    - intros (n & Hn & Hl). assert (n = length pre) as -> by lia.
      rewrite map_app, lookup_app_r in Hl by (rewrite length_map; lia).
      rewrite length_map, Nat.sub_diag in Hl. simpl in Hl. congruence.
    - intros Hx. exists (length pre). split; [done |].
      rewrite map_app, lookup_app_r by (rewrite length_map; lia).
      rewrite length_map, Nat.sub_diag. simpl. congruence. }
  specialize (IH (pre ++ [x])).
  rewrite length_app, <- app_assoc in IH. simpl in IH.
  replace (k0 + Z.of_nat (length pre + 1))%Z
    with (k0 + Z.of_nat (length pre) + 1)%Z in IH by lia.
  rewrite IH. by destruct (f x).
Qed.

Lemma pos_candidates_filter (labels : list string) (idx : Z) (a : string) :
  pos_candidates labels idx a
  = List.filter (λ p, negb (Z.eqb p idx))
                (np_where (np_equal (np_asarray labels) a)).
Proof.
  unfold pos_candidates, np_delete, np_where.
  apply (delete_from_where (λ p, Z.eqb p idx) 0 []).
Qed.

Lemma np_equal_lookup (labels : list string) (a : string) (n : nat) :
  np_equal (np_asarray labels) a !! n
  = (λ l, String.eqb (np_str l) (np_str a)) <$> labels !! n.
Proof.
  unfold np_equal, np_asarray. rewrite !lookup_map.
  by destruct (labels !! n).
Qed.

Lemma elem_of_same_label (labels : list string) (a : string) (p : Z) :
  p ∈ np_where (np_equal (np_asarray labels) a) ↔
  ∃ (n : nat) (l : string),
    p = Z.of_nat n ∧ labels !! n = Some l ∧ np_str l = np_str a.
Proof.
  unfold np_where. rewrite elem_of_where_from. split.
  - intros (n & -> & Hn). rewrite np_equal_lookup in Hn.
    destruct (labels !! n) as [l|] eqn:Hl; [| done]. simpl in Hn.
    exists n, l. split_and!; [lia | done |].
    apply String.eqb_eq. congruence.
  - intros (n & l & -> & Hn & Hl). exists n. split; [lia |].
    rewrite np_equal_lookup, Hn. simpl. by rewrite Hl, String.eqb_refl.
Qed.

Lemma elem_of_pos_candidates (labels : list string) (idx : Z) (a : string)
    (p : Z) :
  p ∈ pos_candidates labels idx a ↔
  p ≠ idx ∧
  ∃ (n : nat) (l : string),
    p = Z.of_nat n ∧ labels !! n = Some l ∧ np_str l = np_str a.
Proof.
  rewrite pos_candidates_filter, elem_of_List_filter, elem_of_same_label.
  rewrite negb_true_iff, Z.eqb_neq. tauto.
Qed.

Lemma elem_of_neg_candidates (labels : list string) (a : string) (n : Z) :
  n ∈ neg_candidates labels a ↔
  ∃ (k : nat) (b : string),
    n = Z.of_nat k ∧ labels !! k = Some b ∧ np_str b ≠ np_str a.
Proof.
  unfold neg_candidates, np_where. rewrite elem_of_where_from. split.
  - intros (k & -> & Hk). rewrite lookup_map, np_equal_lookup in Hk.
    destruct (labels !! k) as [b|] eqn:Hb; [| done]. simpl in Hk.
    exists k, b. split_and!; [lia | done |].
    intros Heq. rewrite Heq, String.eqb_refl in Hk. simpl in Hk. congruence.
  - intros (k & b & -> & Hk & Hb). exists k. split; [lia |].
    rewrite lookup_map, np_equal_lookup, Hk. simpl. f_equal.
    apply negb_true_iff. by apply String.eqb_neq.
Qed.

Lemma py_index_of_nat {A} (l : list A) (n : nat) :
  py_index l (Z.of_nat n) = l !! n.
Proof. rewrite py_index_nonneg by lia. by rewrite Nat2Z.id. Qed.

(** ** The sampler monad *)

Lemma np_random_choice_nil {px} (w : @world px) :
  np_random_choice [] w = (inl ValueError, w).
Proof. done. Qed.

Lemma np_random_choice_inr {px} (a : list Z) (w : @world px) :
  a ≠ [] →
  ∃ x, x ∈ a ∧
       np_random_choice a w
       = (inr x, World (self w) (entropy w) (S (drawn w))).
Proof.
  intros Ha. destruct a as [|y a]; [done |].
  eexists. split; [| reflexivity].
  apply list_elem_of_In, nth_In, Nat.mod_upper_bound. simpl. lia.
Qed.

(** Every candidate is the outcome of some draw. *)
Lemma np_random_choice_any {px} (a : list Z) (x : Z) (w : @world px) :
  x ∈ a →
  ∃ r : nat, entropy w (drawn w) = r →
    np_random_choice a w = (inr x, World (self w) (entropy w) (S (drawn w))).
Proof.
  intros Hx. destruct (list_elem_of_lookup_1 _ _ Hx) as [r Hr].
  exists r. intros Hw. destruct a as [|y a]; [done |].
  unfold np_random_choice. rewrite Hw.
  pose proof (lookup_lt_Some _ _ _ Hr) as Hlt.
  rewrite Nat.mod_small by done.
  do 2 f_equal. by apply nth_lookup_Some with (d := 0%Z).
Qed.

Lemma keeps_self_ret {px A} (a : A) : keeps_self (mret a : @M px A).
Proof. done. Qed.

Lemma keeps_self_bind {px A B} (m : @M px A) (k : A → @M px B) :
  keeps_self m → (∀ a, keeps_self (k a)) → keeps_self (m ≫= k).
Proof.
  intros Hm Hk w. unfold mbind, M_bind. specialize (Hm w).
  destruct (m w) as [[e | a] w1]; simpl in *; [done |].
  by rewrite Hk.
Qed.

Lemma keeps_self_get {px} : keeps_self (@get_self px).
Proof. done. Qed.

Lemma keeps_self_lift {px A} (r : result A) : keeps_self (lift r : @M px A).
Proof. done. Qed.

Lemma keeps_self_choice {px} (a : list Z) :
  keeps_self (np_random_choice a : @M px Z).
Proof. intros w. by destruct a. Qed.

Create HintDb frame.

#[export] Hint Resolve keeps_self_ret keeps_self_get keeps_self_lift
  keeps_self_choice : frame.

Ltac frame :=
  repeat first
    [ apply keeps_self_bind; [| intros ?]
    | progress eauto with frame
    | match goal with
      | |- keeps_self (match ?x with _ => _ end) => destruct x
      end ].

Lemma keeps_self_read_image {px} (fs : @node px) (idx : Z) :
  keeps_self (read_image fs idx).
Proof. unfold read_image. frame. Qed.

Lemma keeps_self_draw_indices {px} (idx : Z) :
  keeps_self (@draw_indices px idx).
Proof. unfold draw_indices. frame. Qed.

Lemma keeps_self_augment {px} (image : @ndarray px) :
  keeps_self (augment image).
Proof. unfold augment. frame. Qed.

#[export] Hint Resolve keeps_self_read_image keeps_self_draw_indices
  keeps_self_augment : frame.

Lemma keeps_self_fetch_triplet {px} (fs : @node px) (float32 : px → px)
    (idx p n : Z) :
  keeps_self (fetch_triplet fs float32 idx p n).
Proof. unfold fetch_triplet. frame. Qed.

Lemma keeps_self_getitem {px} (fs : @node px) (float32 : px → px) (idx : Z) :
  keeps_self (__getitem__ fs float32 idx).
Proof.
  unfold __getitem__. apply keeps_self_bind; [eauto with frame |].
  intros [p n]. apply keeps_self_fetch_triplet.
Qed.

(** ** The Triplet Sampler *)

Lemma draw_indices_run {px} (w : @world px) (i : Z) (a : string) :
  py_index (label_list (self w)) i = Some a →
  draw_indices i w
  = (pos_idx ← np_random_choice (pos_candidates (label_list (self w)) i a);
     neg_idx ← np_random_choice (neg_candidates (label_list (self w)) a);
     mret (pos_idx, neg_idx)) w.
Proof.
  intros Ha. unfold draw_indices, mbind, M_bind, get_self, lift. simpl.
  unfold index_or_raise. by rewrite Ha.
Qed.

(** C1, as the code has it.  The labels are compared inside a numpy
    array, where trailing NUL characters do not count.  For an anchor
    index [i] (any index Python accepts) whose label is, up to trailing
    NULs, shared by another index and different from the label of some
    index, [__getitem__] draws a positive index [p] and a negative index
    [n] with [p ≠ i], [label_list[p]] equal to [label_list[i]] up to
    trailing NULs and [label_list[n]] different from it even so, whatever
    the random draws are, and goes on to fetch the images at [i], [p] and
    [n].  When no writer-id ends in a NUL this is
    [label_list[p] = label_list[i]] and [label_list[n] ≠ label_list[i]]. *)
Theorem getitem_triplet_indices {px} (fs : @node px) (float32 : px → px)
    (w : @world px) (i : Z) (a : string) :
  py_index (label_list (self w)) i = Some a →
  (∃ (j : nat) (l : string),
     Z.of_nat j ≠ i ∧ label_list (self w) !! j = Some l ∧
     np_str l = np_str a) →
  (∃ (k : nat) (b : string),
     label_list (self w) !! k = Some b ∧ np_str b ≠ np_str a) →
  ∃ (p n : Z) (w' : @world px),
    draw_indices i w = (inr (p, n), w') ∧
    __getitem__ fs float32 i w = fetch_triplet fs float32 i p n w' ∧
    p ≠ i ∧
    (∃ l, py_index (label_list (self w)) p = Some l ∧ np_str l = np_str a) ∧
    (∃ b, py_index (label_list (self w)) n = Some b ∧ np_str b ≠ np_str a) ∧
    (nul_free (label_list (self w)) →
     py_index (label_list (self w)) p = Some a ∧
     ∃ b, py_index (label_list (self w)) n = Some b ∧ b ≠ a).
Proof.
  intros Ha (j & l & Hji & Hj & Hl) (k & b & Hk & Hb).
  assert (pos_candidates (label_list (self w)) i a ≠ []) as Hpos.
  { intros Hnil. assert (Z.of_nat j ∈ pos_candidates (label_list (self w)) i a)
      as Hin by (apply elem_of_pos_candidates; eauto 10).
    rewrite Hnil in Hin. by apply elem_of_nil in Hin. }
  assert (neg_candidates (label_list (self w)) a ≠ []) as Hneg.
  { intros Hnil. assert (Z.of_nat k ∈ neg_candidates (label_list (self w)) a)
      as Hin by (apply elem_of_neg_candidates; eauto).
    rewrite Hnil in Hin. by apply elem_of_nil in Hin. }
  destruct (np_random_choice_inr _ w Hpos) as (p & Hp & Hcp).
  destruct (np_random_choice_inr _
              (World (self w) (entropy w) (S (drawn w))) Hneg)
    as (n & Hn & Hcn).
  assert (draw_indices i w
          = (inr (p, n), World (self w) (entropy w) (S (S (drawn w)))))
    as Hdraw.
  { rewrite (draw_indices_run w i a Ha). unfold mbind, M_bind.
    rewrite Hcp. simpl in Hcn. by rewrite Hcn. }
  exists p, n, (World (self w) (entropy w) (S (S (drawn w)))).
  apply elem_of_pos_candidates in Hp as (Hpi & np & lp & -> & Hnp & Hlp).
  apply elem_of_neg_candidates in Hn as (nn & b' & -> & Hnn & Hb').
  rewrite !py_index_of_nat.
  split_and!; [done | | done | by exists lp | by exists b' |].
  - unfold __getitem__, mbind, M_bind at 1. by rewrite Hdraw.
  - intros Hfree. unfold nul_free in Hfree.
    pose proof (py_index_Some_lookup _ _ _ Ha) as [ka Hka].
    assert (np_str a = a) as Ea
      by (eapply (proj1 (Forall_forall _ _) Hfree), list_elem_of_lookup_2, Hka).
    assert (np_str lp = lp) as Ep
      by (eapply (proj1 (Forall_forall _ _) Hfree), list_elem_of_lookup_2, Hnp).
    assert (np_str b' = b') as Eb
      by (eapply (proj1 (Forall_forall _ _) Hfree), list_elem_of_lookup_2, Hnn).
    split; [congruence |]. exists b'. split; [done | congruence].
Qed.

Lemma getitem_triplet_indices_witness :
  ∃ (p n : Z) (w' : @world Z),
    draw_indices 0 (Samples.world_of Samples.ds_aba) = (inr (p, n), w') ∧
    p ≠ 0%Z ∧
    py_index (label_list Samples.ds_aba) p = Some "a" ∧
    ∃ b, py_index (label_list Samples.ds_aba) n = Some b ∧ b ≠ "a".
Proof.
  destruct (getitem_triplet_indices (Dir []) (λ v, v)
              (Samples.world_of Samples.ds_aba) 0 "a")
    as (p & n & w' & H1 & _ & H2 & _ & _ & H3).
  - reflexivity.
  - exists 2%nat, "a". split_and!; [lia | reflexivity | reflexivity].
  - exists 1%nat, "b". split; [reflexivity | discriminate].
  - destruct H3 as [H3 H4]; [repeat constructor |].
    exists p, n, w'. auto.
Defined.

(** C1, counterexample.  With the labels a-NUL, a, a, b and the anchor at
    index 1, another index (2) carries the anchor's label and another
    (3) a different one; the draws 0, 0 pick the positive index 0, whose
    label a-NUL is not the anchor's label a. *)
Lemma getitem_triplet_nul_counterexample :
  py_index (label_list NulSamples.ds_nul4) 1 = Some "a" ∧
  label_list NulSamples.ds_nul4 !! 2 = Some "a" ∧
  label_list NulSamples.ds_nul4 !! 3 = Some "b" ∧
  (draw_indices 1 (World NulSamples.ds_nul4 (λ _, 0) 0)).1
    = inr (0%Z, 3%Z) ∧
  py_index (label_list NulSamples.ds_nul4) 0 = Some NulSamples.a_nul ∧
  py_index (label_list NulSamples.ds_nul4) 0
    ≠ py_index (label_list NulSamples.ds_nul4) 1.
Proof. split_and!; try reflexivity. discriminate. Qed.

Lemma np_occurrences_nul_free (labels : list string) (a : string) :
  nul_free labels → a ∈ labels → np_occurrences labels a = occurrences labels a.
Proof.
  intros Hfree Ha. unfold np_occurrences, occurrences.
  rewrite np_asarray_nul_free by done.
  by rewrite (proj1 (Forall_forall _ _) Hfree a Ha).
Qed.

Lemma lone_writer_no_candidate (labels : list string) (i : Z) (a : string) :
  (0 ≤ i)%Z → py_index labels i = Some a → np_occurrences labels a = 1%nat →
  pos_candidates labels i a = [].
Proof.
  intros Hi Ha Hocc. rewrite pos_candidates_filter.
  rewrite py_index_nonneg in Ha by done.
  assert (i ∈ np_where (np_equal (np_asarray labels) a)) as Hin.
  { apply elem_of_same_label. exists (Z.to_nat i), a. split_and!; [lia | done..]. }
  unfold np_occurrences in Hocc.
  unfold np_where, np_equal in *. rewrite <- (where_from_length _ 0) in Hocc.
  destruct (where_from 0 _) as [|x [|y r]]; try done.
  apply list_elem_of_singleton in Hin as ->. simpl. by rewrite Z.eqb_refl.
Qed.

Lemma getitem_no_candidate {px} (fs : @node px) (float32 : px → px)
    (w : @world px) (i : Z) (a : string) :
  py_index (label_list (self w)) i = Some a →
  pos_candidates (label_list (self w)) i a = [] →
  __getitem__ fs float32 i w = (inl ValueError, w).
Proof.
  intros Ha Hnil. unfold __getitem__, mbind, M_bind at 1.
  rewrite (draw_indices_run w i a Ha). unfold mbind, M_bind at 1.
  by rewrite Hnil.
Qed.

(** C8, as the code has it.  For an anchor index [i] of the dataset
    (0 ≤ i < len) whose writer-id is found exactly once in [label_list] by
    numpy's comparison, which ignores trailing NUL characters (when no
    writer-id ends in a NUL: whose writer-id occurs exactly once), the
    positive-candidate array is empty and [__getitem__] ends with the
    ValueError that [np.random.choice] raises on it: the exception reaches
    the caller as it is, before any image is read, and no random draw is
    consumed. *)
Theorem getitem_lone_writer {px} (fs : @node px) (float32 : px → px)
    (w : @world px) (i : Z) (a : string) :
  (0 ≤ i)%Z →
  py_index (label_list (self w)) i = Some a →
  np_occurrences (label_list (self w)) a = 1%nat ∨
  (nul_free (label_list (self w)) ∧
   occurrences (label_list (self w)) a = 1%nat) →
  pos_candidates (label_list (self w)) i a = [] ∧
  draw_indices i w = (inl ValueError, w) ∧
  __getitem__ fs float32 i w = (inl ValueError, w).
Proof.
  intros Hi Ha Hocc.
  assert (np_occurrences (label_list (self w)) a = 1%nat) as Hnp.
  { destruct Hocc as [? | [Hfree Hocc]]; [done |].
    rewrite np_occurrences_nul_free; [done | done |].
    apply py_index_Some_lookup in Ha as [k Hk].
    by eapply list_elem_of_lookup_2. }
  pose proof (lone_writer_no_candidate _ i a Hi Ha Hnp) as Hnil.
  split_and!; [done | | by eapply getitem_no_candidate].
  rewrite (draw_indices_run w i a Ha). unfold mbind, M_bind at 1.
  by rewrite Hnil.
Qed.

Lemma getitem_lone_writer_witness :
  __getitem__ (Dir []) (λ v : Z, v) 0 (Samples.world_of Samples.ds_ab)
  = (inl ValueError, Samples.world_of Samples.ds_ab).
Proof.
  apply (getitem_lone_writer (Dir []) (λ v, v)
           (Samples.world_of Samples.ds_ab) 0 "a").
  - lia.
  - reflexivity.
  - right. split; [repeat constructor | reflexivity].
Defined.

(** C8, counterexample.  With the labels a-NUL, a, b the writer-id at
    index 0 occurs exactly once in [label_list], yet index 1 is a positive
    candidate and [__getitem__] returns a triplet. *)
Lemma getitem_lone_writer_nul_counterexample :
  py_index (label_list NulSamples.ds_nul3) 0 = Some NulSamples.a_nul ∧
  occurrences (label_list NulSamples.ds_nul3) NulSamples.a_nul = 1%nat ∧
  pos_candidates (label_list NulSamples.ds_nul3) 0 NulSamples.a_nul = [1%Z] ∧
  (draw_indices 0 (Samples.world_of NulSamples.ds_nul3)).1
    = inr (1%Z, 2%Z) ∧
  ∃ t w',
    __getitem__ Samples.root_probe (λ v : Z, v) 0
      (Samples.world_of NulSamples.ds_nul3) = (inr t, w').
Proof.
  split_and!; try reflexivity. do 2 eexists. vm_compute. reflexivity.
Qed.

(** With Python's wrap-around the anchor may be addressed by a negative
    index; its own position is then not removed from the candidates. *)
Lemma getitem_negative_index_self :
  (draw_indices (-1) (Samples.world_of Samples.ds_ab)).1 = inr (1%Z, 0%Z).
Proof. reflexivity. Qed.

(** C9. [__getitem__] and [read_image] leave the dataset object as they
    found it, for every index and on every outcome (a triplet or an
    exception): [image_path_list], [label_list] and [label2int_map] are
    the same before and after.  Only the random state advances. *)
Theorem getitem_keeps_dataset {px} (fs : @node px) (float32 : px → px)
    (idx : Z) (w : @world px) :
  self (__getitem__ fs float32 idx w).2 = self w ∧
  image_path_list (self (__getitem__ fs float32 idx w).2)
    = image_path_list (self w) ∧
  label_list (self (__getitem__ fs float32 idx w).2) = label_list (self w) ∧
  label2int_map (self (__getitem__ fs float32 idx w).2)
    = label2int_map (self w) ∧
  self (read_image fs idx w).2 = self w.
Proof.
  pose proof (keeps_self_getitem fs float32 idx w) as H.
  rewrite H. split_and!; try done. apply keeps_self_read_image.
Qed.

(** ** Globbing *)

Lemma elem_of_glob {px} (fs : @node px) (matches : string → bool)
    (p q : path) :
  q ∈ glob fs matches p → ∃ name, q = p ++ [name] ∧ matches name = true.
Proof.
  unfold glob. destruct (resolve fs p) as [[c | es] |];
    try (by intros ?%elem_of_nil).
  intros Hq. apply list_elem_of_In, in_map_iff in Hq as (e & <- & He).
  apply filter_In in He as [_ He]. eauto.
Qed.

Lemma parent_snoc (p : path) (name : string) : parent (p ++ [name]) = p.
Proof. apply removelast_last. Qed.

Lemma parent_glob {px} (fs : @node px) (matches : string → bool)
    (p q : path) :
  q ∈ glob fs matches p → parent q = p.
Proof. intros (name & -> & _)%elem_of_glob. apply parent_snoc. Qed.

(** ** The Resilient Image Reader *)

Lemma first_opened_error {px} (fs : @node px) (l : list path) (e : exn) :
  first_opened fs l = inl e → e = IndexError.
Proof.
  induction l as [|q l IH]; simpl; [congruence |].
  destruct (Image_open fs q); [done | exact IH].
Qed.

Lemma first_opened_none {px} (fs : @node px) (l : list path) :
  Forall (λ q, Image_open fs q = None) l →
  first_opened fs l = inl IndexError.
Proof.
  induction 1 as [|q l Hq _ IH]; simpl; [done |]. by rewrite Hq.
Qed.

Lemma first_opened_first {px} (fs : @node px) (pre post : list path)
    (q : path) (a : @pil_image px) :
  Forall (λ q, Image_open fs q = None) pre → Image_open fs q = Some a →
  first_opened fs (pre ++ q :: post) = inr a.
Proof.
  induction 1 as [|q' pre Hq' _ IH]; simpl; intros Hq.
  - by rewrite Hq.
  - rewrite Hq'. by apply IH.
Qed.

(** The loop entered at [image_path] with [io_idx = -j] tries
    [image_path], then [files[-(j+1)]], [files[-(j+2)]], ... *)
Lemma read_image_loop_probes {px} (fs : @node px) (fuel : nat)
    (image_path : path) (j : nat) :
  length (drop j (reverse (glob fs star (parent image_path)))) < fuel →
  read_image_loop fs fuel image_path (- Z.of_nat j)
  = first_opened fs
      (image_path :: drop j (reverse (glob fs star (parent image_path)))).
Proof.
  revert image_path j. induction fuel as [|fuel IH]; intros cur j Hfuel;
    [lia |].
  simpl. destruct (Image_open fs cur) as [a|]; [done |].
  replace (- Z.of_nat j - 1)%Z with (- Z.of_nat (S j))%Z by lia.
  unfold index_or_raise. rewrite py_index_neg.
  destruct (reverse (glob fs star (parent cur)) !! j) as [q|] eqn:Hq.
  - assert (parent q = parent cur) as Hpar.
    { eapply parent_glob, elem_of_reverse, list_elem_of_lookup_2, Hq. }
    rewrite (drop_S _ _ _ Hq) in Hfuel |- *. simpl in Hfuel.
    unfold mbind, result_bind. rewrite IH; rewrite Hpar; [done | lia].
  - apply lookup_ge_None in Hq. by rewrite drop_ge.
Qed.

Lemma read_image_loop_run {px} (fs : @node px) (image_path : path) :
  read_image_loop fs (probe_fuel fs image_path) image_path (-1)
  = first_opened fs (image_path :: probes fs image_path).
Proof.
  change (-1)%Z with (- Z.of_nat 1)%Z. rewrite read_image_loop_probes.
  - unfold probes. by destruct (reverse _).
  - unfold probe_fuel. rewrite length_drop, length_reverse. lia.
Qed.

(** The fuel given to the loop is never used up. *)
Lemma read_image_loop_total {px} (fs : @node px) (image_path : path) :
  read_image_loop fs (probe_fuel fs image_path) image_path (-1)
  ≠ inl FuelExhausted.
Proof.
  rewrite read_image_loop_run. intros H.
  by apply first_opened_error in H.
Qed.

Lemma read_image_run {px} (fs : @node px) (idx : Z) (w : @world px) :
  read_image fs idx w
  = (image_path ← index_or_raise (image_path_list (self w)) idx;
     image ← first_opened fs (image_path :: probes fs image_path);
     image ← np_array image;
     first3 image, w).
Proof.
  unfold read_image, mbind at 1 2 3, M_bind, get_self, lift.
  cbv beta iota.
  destruct (index_or_raise (image_path_list (self w)) idx) as [e | p];
    [done |].
  rewrite read_image_loop_run. unfold mbind, result_bind.
  by destruct (first_opened fs (p :: probes fs p)) as [|[[a|]]].
Qed.

(** C2, as the code has it.  When [Image.open] raises on the recorded
    path, [read_image] does not raise: it probes the listing of that
    file's directory from its end, the second-to-last entry first, then
    the third-to-last, and so on down to the first entry, wherever the
    recorded file stands in the listing, and goes on with the first entry
    that [Image.open] accepts; when there is none, the IndexError of the
    exhausted listing reaches the caller.  Of the array decoded from the
    accepted file, when it has at least 3 channels, exactly the first 3
    channels are kept. *)
Theorem read_image_probes_from_end {px} (fs : @node px) (idx : Z)
    (w : @world px) (image_path : path) :
  py_index (image_path_list (self w)) idx = Some image_path →
  (read_image fs idx w
   = (image ← first_opened fs
                (image_path ::
                 tail (reverse (glob fs star (parent image_path))));
      image ← np_array image;
      first3 image, w)) ∧
  (Forall (λ q, Image_open fs q = None)
          (image_path :: tail (reverse (glob fs star (parent image_path)))) →
   read_image fs idx w = (inl IndexError, w)) ∧
  (∀ pre q post d0 d1 d2 f,
     image_path :: tail (reverse (glob fs star (parent image_path)))
       = pre ++ q :: post →
     Forall (λ q, Image_open fs q = None) pre →
     Image_open fs q = Some (PIL (Some (Arr3 d0 d1 d2 f))) → (3 ≤ d2)%nat →
     read_image fs idx w = (inr (Arr3 d0 d1 3 f), w)).
Proof.
  intros Hp. rewrite read_image_run. unfold index_or_raise. rewrite Hp.
  fold (probes fs image_path). split_and!; [done | |].
  - intros Hall. unfold mbind, result_bind. cbv beta iota.
    by rewrite (first_opened_none fs (_ :: _) Hall).
  - intros pre q post d0 d1 d2 f Heq Hpre Hq Hd.
    unfold mbind, result_bind. cbv beta iota. rewrite Heq.
    rewrite (first_opened_first fs pre post q _ Hpre Hq). simpl.
    do 3 f_equal. lia.
Qed.

Lemma read_image_probes_from_end_witness :
  read_image Samples.root_probe 0 (Samples.world_of Samples.ds_probe)
  = (inr (Arr3 1 1 3 (λ _ _ _, 30%Z)), Samples.world_of Samples.ds_probe).
Proof.
  refine (proj2 (proj2 (read_image_probes_from_end Samples.root_probe 0
            (Samples.world_of Samples.ds_probe) ["d"; "w_0150_x1.png"] _))
          [["d"; "w_0150_x1.png"]] ["d"; "c.png"] [["d"; "w_0150_x1.png"];
            ["d"; "a.png"]] 1%nat 1%nat 3%nat (λ _ _ _, 30%Z) _ _ _ _).
  - reflexivity.
  - reflexivity.
  - repeat constructor.
  - reflexivity.
  - lia.
Defined.

(** C2, counterexample.  In a directory listed as a.png, w_0150_x1.png,
    c.png, z.png whose canonical frame is unreadable, the entry before
    the canonical one is a.png, but [read_image] returns the content of
    c.png, which is listed after it. *)
Lemma read_image_preceding_counterexample :
  Image_open Samples.root_probe ["d"; "w_0150_x1.png"] = None ∧
  glob Samples.root_probe star ["d"]
    = [["d"; "a.png"]; ["d"; "w_0150_x1.png"]; ["d"; "c.png"];
       ["d"; "z.png"]] ∧
  read_image_preceding Samples.root_probe ["d"; "w_0150_x1.png"]
    = first3 (Samples.pixel_of 10 4) ∧
  (read_image Samples.root_probe 0 (Samples.world_of Samples.ds_probe)).1
    = first3 (Samples.pixel_of 30 3) ∧
  (read_image Samples.root_probe 0 (Samples.world_of Samples.ds_probe)).1
    ≠ read_image_preceding Samples.root_probe ["d"; "w_0150_x1.png"].
Proof.
  split_and!; try reflexivity.
  intros H. vm_compute in H. injection H as H.
  discriminate (f_equal (λ g, g 0%nat 0%nat 0%nat) H).
Qed.

(** ** The Path Resolver: loops as a run over the processed attempts *)

Lemma glob_nonempty {px} (fs : @node px) (matches : string → bool)
    (p q : path) :
  q ∈ glob fs matches p → ∃ name, py_index q (-1) = Some name ∧ q ≠ [].
Proof.
  intros (name & -> & _)%elem_of_glob. exists name.
  split; [apply py_index_snoc | by destruct p].
Qed.

Lemma pos_loop_acc {px} (fs : @node px) (label_path : path)
    (zipped : list (path * path)) (ps : list path) :
  pos_loop fs label_path zipped ps
  = (r ← pos_loop fs label_path zipped []; inr (ps ++ r)).
Proof.
  revert ps. induction zipped as [|[img_pos lab_pos] rest IH]; intros ps.
  - simpl. by rewrite app_nil_r.
  - simpl. unfold mbind, result_bind.
    destruct (index_or_raise (glob fs canonical img_pos) 0) as [|ip]; [done |].
    destruct (index_or_raise ip (-3)) as [|a]; [done |].
    destruct (index_or_raise label_path (-3)) as [|b]; [done |].
    destruct (String.eqb a b); [| done].
    rewrite (IH (ps ++ [ip])), (IH [ip]). unfold mbind, result_bind.
    destruct (pos_loop fs label_path rest []); [done |].
    by rewrite <- app_assoc.
Qed.

Lemma pos_loop_app {px} (fs : @node px) (label_path : path)
    (z1 z2 : list (path * path)) (ps : list path) :
  pos_loop fs label_path (z1 ++ z2) ps
  = (ps' ← pos_loop fs label_path z1 ps; pos_loop fs label_path z2 ps').
Proof.
  revert ps. induction z1 as [|[img_pos lab_pos] z1 IH]; intros ps; [done |].
  simpl. unfold mbind, result_bind.
  destruct (index_or_raise (glob fs canonical img_pos) 0) as [|ip]; [done |].
  destruct (index_or_raise ip (-3)) as [|a]; [done |].
  destruct (index_or_raise label_path (-3)) as [|b]; [done |].
  destruct (String.eqb a b); [| done]. apply IH.
Qed.

Lemma attempt_acc {px} (fs : @node px) (img_tf lab_tf : path) (a : acc) :
  attempt fs img_tf lab_tf a
  = (c ← contribution fs (img_tf, lab_tf); inr (a.1 ++ c.1, a.2 ++ c.2)).
Proof.
  unfold contribution, attempt. simpl.
  destruct (length (glob fs star img_tf) =? length (glob fs star lab_tf))%nat.
  - unfold mbind, result_bind.
    destruct (index_or_raise (glob fs star lab_tf) 0) as [|lab0]; [done |].
    rewrite (pos_loop_acc _ _ _ a.1).
    unfold mbind, result_bind.
    destruct (pos_loop fs _ _ []) as [|r]; [done |].
    by destruct (get_label_from_json fs _).
  - unfold mbind, result_bind.
    destruct (index_or_raise (glob fs star img_tf) 0); [done |].
    by destruct (index_or_raise (glob fs star lab_tf) 0).
Qed.

Lemma run_attempts_app {px} (fs : @node px) (l1 l2 : list (path * path))
    (a : acc) :
  run_attempts fs (l1 ++ l2) a
  = (a' ← run_attempts fs l1 a; run_attempts fs l2 a').
Proof.
  revert a. induction l1 as [|x l1 IH]; intros a; simpl; [done |].
  unfold mbind, result_bind. destruct (attempt fs x.1 x.2 a); [done |].
  apply IH.
Qed.

Lemma tf_loop_kept {px} (fs : @node px) (train : bool) (sanity : option bool)
    (i_tf : nat) (zipped : list (path * path)) (a : acc) :
  Forall (λ x, x.1 ≠ []) zipped →
  tf_loop fs train sanity i_tf zipped a
  = run_attempts fs (kept_tf sanity train i_tf zipped) a.
Proof.
  intros Hne. revert i_tf a.
  induction Hne as [|[img_tf lab_tf] rest Hx _ IH]; intros i_tf a; [done |].
  simpl in *. unfold name_traced, index_or_raise.
  destruct (py_index img_tf (-1)) as [name|] eqn:Hname.
  - simpl. destruct (traced name); [apply IH |]. simpl.
    unfold mbind, result_bind.
    destruct (attempt fs img_tf lab_tf a); [done |].
    destruct (do_break sanity train i_tf); [done | apply IH].
  - destruct img_tf as [|n p] using rev_ind; [done |].
    by rewrite py_index_snoc in Hname.
Qed.

Lemma attempt_pairs_nonempty {px} (fs : @node px) (s : path * path) :
  Forall (λ x, x.1 ≠ []) (attempt_pairs fs s).
Proof.
  apply Forall_forall. intros [i l] Hin. simpl.
  apply elem_of_zip_l in Hin. simpl in Hin.
  by apply glob_nonempty in Hin as (_ & _ & ?).
Qed.

Lemma sen_loop_kept {px} (fs : @node px) (train : bool) (sanity : option bool)
    (i_sen : nat) (zipped : list (path * path)) (a : acc) :
  sen_loop fs train sanity i_sen zipped a
  = run_attempts fs
      (concat (map (λ s, kept_tf sanity train 0 (attempt_pairs fs s))
                   (kept_sen sanity train i_sen zipped))) a.
Proof.
  revert i_sen a. induction zipped as [|[img_sen lab_sen] rest IH];
    intros i_sen a; [done |].
  simpl. rewrite run_attempts_app.
  rewrite tf_loop_kept by apply (attempt_pairs_nonempty fs (img_sen, lab_sen)).
  unfold mbind, result_bind, attempt_pairs. simpl.
  destruct (run_attempts fs _ a) as [|a']; [done |].
  destruct (do_break sanity train i_sen); [done | apply IH].
Qed.

(** [read_paths] runs the body of the writer-attempt loop over
    [attempts], in order, and then checks the two lengths. *)
Lemma read_paths_attempts {px} (fs : @node px) (train : bool)
    (sanity : option bool) (root : path) :
  read_paths fs train sanity root
  = (a ← run_attempts fs (attempts fs train sanity root) ([], []);
     if (length a.1 =? length a.2)%nat then inr a else inl AssertionError).
Proof. unfold read_paths. by rewrite sen_loop_kept. Qed.

Lemma run_attempts_inr {px} (fs : @node px) (l : list (path * path))
    (a r : acc) :
  run_attempts fs l a = inr r ↔
  Forall (completes fs) l ∧
  r = (a.1 ++ concat (map (λ x, (contributed fs x).1) l),
       a.2 ++ concat (map (λ x, (contributed fs x).2) l)).
Proof.
  revert a. induction l as [|x l IH]; intros a; simpl.
  - rewrite !app_nil_r. destruct a. split; [intros [= <-] | intros [_ ->]];
      by repeat constructor.
  - rewrite attempt_acc. unfold contributed, completes.
    rewrite Forall_cons. destruct x as [i lb]. simpl.
    unfold mbind, result_bind.
    destruct (contribution fs (i, lb)) as [e | c] eqn:Hc.
    + split; [done | intros [[[c Hc'] _] _]; done].
    + rewrite IH. simpl. rewrite <- !app_assoc. unfold completes.
      split; [intros [Hl ->] | intros [[_ Hl] ->]]; eauto.
Qed.

Lemma run_attempts_error {px} (fs : @node px) (l : list (path * path))
    (a : acc) (x : path * path) :
  x ∈ l → ¬ completes fs x → ∃ e, run_attempts fs l a = inl e.
Proof.
  intros Hx Hno. destruct (run_attempts fs l a) as [e | r] eqn:Hr; [eauto |].
  apply run_attempts_inr in Hr as [Hall _].
  eapply Forall_forall in Hall; [| done]. done.
Qed.

Lemma read_paths_error {px} (fs : @node px) (train : bool)
    (sanity : option bool) (root : path) (x : path * path) :
  x ∈ attempts fs train sanity root → ¬ completes fs x →
  ∃ e, read_paths fs train sanity root = inl e.
Proof.
  intros Hx Hno. rewrite read_paths_attempts.
  destruct (run_attempts_error fs _ ([], []) x Hx Hno) as [e ->]. eauto.
Qed.

(** ** What a completed attempt has checked and produced *)

Lemma pos_loop_inr {px} (fs : @node px) (label_path : path)
    (zipped : list (path * path)) (r : list path) :
  pos_loop fs label_path zipped [] = inr r →
  Forall2 (λ z p, ∃ file, p = z.1 ++ [file] ∧ canonical file = true ∧
                          glob fs canonical z.1 ≠ [] ∧
                          py_index p (-3) = py_index label_path (-3))
          zipped r.
Proof.
  revert r. induction zipped as [|[img_pos lab_pos] rest IH]; intros r; simpl.
  - intros [= <-]. constructor.
  - rewrite index_or_raise_0. unfold mbind at 1, result_bind at 1.
    destruct (glob fs canonical img_pos) as [|ip g] eqn:Hg; [done |].
    unfold index_or_raise, mbind, result_bind.
    destruct (py_index ip (-3)) as [a|] eqn:Ha; [| done].
    destruct (py_index label_path (-3)) as [b|] eqn:Hb; [| done].
    destruct (String.eqb_spec a b) as [-> | Hne]; [| done].
    rewrite pos_loop_acc. unfold mbind, result_bind.
    destruct (pos_loop fs label_path rest []) as [|r'] eqn:Hr'; [done |].
    intros [= <-]. constructor; [| by apply IH].
    assert (ip ∈ glob fs canonical img_pos) as Hin by (rewrite Hg; left).
    apply elem_of_glob in Hin as (file & -> & Hfile).
    exists file. simpl. split_and!; [done | done | by rewrite Hg |].
    by rewrite Ha.
Qed.

Lemma Forall2_zip_fst {A B C} (P : A → C → Prop) (la : list A)
    (lb : list B) (lc : list C) :
  length la = length lb →
  Forall2 (λ z c, P z.1 c) (zip la lb) lc → Forall2 P la lc.
Proof.
  revert lb lc. induction la as [|a la IH]; intros [|b lb] lc Hlen H;
    simpl in *; try done.
  - inversion H. constructor.
  - inversion H as [|? c ? lc' Hc Hlc]; subst. constructor; [done |].
    eapply IH; [| done]. lia.
Qed.

Lemma contribution_inr {px} (fs : @node px) (img_tf lab_tf : path) (c : acc) :
  contribution fs (img_tf, lab_tf) = inr c →
  length (glob fs star img_tf) = length (glob fs star lab_tf) ∧
  (∃ lab0 label,
     head (glob fs star lab_tf) = Some lab0 ∧
     get_label_from_json fs (lab0 ++ ["labels(sent1).json"]) = inr label ∧
     c.2 = replicate (length (glob fs star lab_tf)) label ∧
     Forall2 (λ img_pos p,
                ∃ file, p = img_pos ++ [file] ∧ canonical file = true ∧
                        glob fs canonical img_pos ≠ [] ∧
                        py_index p (-3)
                        = py_index (lab0 ++ ["labels(sent1).json"]) (-3))
             (glob fs star img_tf) c.1).
Proof.
  unfold contribution, attempt. simpl.
  destruct (Nat.eqb_spec (length (glob fs star img_tf))
                         (length (glob fs star lab_tf))) as [Hlen | Hlen].
  - rewrite index_or_raise_0. unfold mbind, result_bind.
    destruct (glob fs star lab_tf) as [|lab0 labs] eqn:Hlab; [done |].
    destruct (pos_loop fs _ _ []) as [|r] eqn:Hr; [done |].
    destruct (get_label_from_json fs _) as [|label] eqn:Hlabel; [done |].
    intros [= <-]. split; [done |]. exists lab0, label.
    split_and!; try done. simpl.
    apply pos_loop_inr in Hr.
    by eapply Forall2_zip_fst.
  - unfold mbind, result_bind.
    destruct (index_or_raise (glob fs star img_tf) 0); [done |].
    by destruct (index_or_raise (glob fs star lab_tf) 0).
Qed.

Lemma contribution_lengths {px} (fs : @node px) (x : path * path) (c : acc) :
  contribution fs x = inr c → length c.1 = length c.2.
Proof.
  destruct x as [i l]. intros (Hlen & lab0 & label & _ & _ & -> & Hf)
    %contribution_inr.
  apply Forall2_length in Hf. rewrite length_replicate.
  etrans; [symmetry; exact Hf | exact Hlen].
Qed.

(** The final [assert] of [read_paths] cannot fail: every completed
    attempt adds as many labels as paths. *)
Lemma run_attempts_lengths {px} (fs : @node px) (l : list (path * path))
    (r : acc) :
  run_attempts fs l ([], []) = inr r → length r.1 = length r.2.
Proof.
  intros [Hall ->]%run_attempts_inr. simpl.
  induction Hall as [|x l [c Hc] _ IH]; simpl; [done |].
  rewrite !length_app, IH. f_equal. unfold contributed. rewrite Hc.
  by eapply contribution_lengths.
Qed.

Lemma read_paths_inr {px} (fs : @node px) (train : bool)
    (sanity : option bool) (root : path) (r : acc) :
  read_paths fs train sanity root = inr r ↔
  run_attempts fs (attempts fs train sanity root) ([], []) = inr r.
Proof.
  rewrite read_paths_attempts. unfold mbind, result_bind.
  destruct (run_attempts fs _ _) as [e | a] eqn:Ha; [done |].
  apply run_attempts_lengths in Ha. apply Nat.eqb_eq in Ha. by rewrite Ha.
Qed.

(** C5. After every successful construction the number of resolved image
    paths equals the number of resolved writer-ids, and [__len__] returns
    that common count.  ([read_paths] ends with the [assert] on the two
    lengths, so a difference would abort construction.) *)
Theorem init_lengths_agree {px} (fs : @node px) (root : path)
    (tr : option (@ndarray px → result (@ndarray px))) (train : bool)
    (sanity : option bool) (ds : @dataset px) :
  __init__ fs root tr train sanity = inr ds →
  length (image_path_list ds) = length (label_list ds) ∧
  __len__ ds = length (label_list ds) ∧
  __len__ ds = length (image_path_list ds).
Proof.
  unfold __init__, read_paths, mbind, result_bind, __len__.
  destruct (sen_loop fs train sanity 0 _ _) as [e | [paths labels]];
    [done |].
  simpl. destruct (Nat.eqb_spec (length paths) (length labels)) as [Hlen |];
    [| done].
  intros [= <-]. simpl. by rewrite Hlen.
Qed.

Lemma init_lengths_agree_witness :
  ∃ ds : @dataset Z,
    __init__ Samples.root_2x2x3 [] None true None = inr ds ∧
    __len__ ds = 12%nat ∧
    length (image_path_list ds) = length (label_list ds).
Proof.
  eexists. split; [vm_compute; reflexivity |]. split; [reflexivity |].
  eapply (init_lengths_agree Samples.root_2x2x3 [] None true None).
  vm_compute. reflexivity.
Defined.

(** ** Which attempts are processed *)

Lemma kept_tf_elem_of (sanity : option bool) (train : bool) (i_tf : nat)
    (zipped : list (path * path)) (x : path * path) :
  x ∈ kept_tf sanity train i_tf zipped →
  x ∈ zipped ∧ name_traced x.1 = false.
Proof.
  revert i_tf. induction zipped as [|y rest IH]; intros i_tf; simpl.
  - by intros ?%elem_of_nil.
  - destruct (name_traced y.1) eqn:Hy.
    + intros [? ?]%IH. split; [by right | done].
    + intros [-> | Hx]%elem_of_cons; [split; [by left | done] |].
      destruct (do_break sanity train i_tf); [by apply elem_of_nil in Hx |].
      apply IH in Hx as [? ?]. split; [by right | done].
Qed.

Lemma kept_sen_elem_of (sanity : option bool) (train : bool) (i_sen : nat)
    (zipped : list (path * path)) (s : path * path) :
  s ∈ kept_sen sanity train i_sen zipped → s ∈ zipped.
Proof.
  revert i_sen. induction zipped as [|y rest IH]; intros i_sen; simpl.
  - by intros ?%elem_of_nil.
  - intros [-> | Hs]%elem_of_cons; [by left |].
    destruct (do_break sanity train i_sen); [by apply elem_of_nil in Hs |].
    right. by eapply IH.
Qed.

Lemma elem_of_concat_map {A B} (f : A → list B) (l : list A) (y : B) :
  y ∈ concat (map f l) ↔ ∃ x, x ∈ l ∧ y ∈ f x.
Proof.
  rewrite list_elem_of_In, in_concat. split.
  - intros (ys & Hys & Hy). apply in_map_iff in Hys as (x & <- & Hx).
    exists x. by rewrite !list_elem_of_In.
  - intros (x & Hx & Hy). exists (f x). split.
    + apply in_map. by apply list_elem_of_In.
    + by apply list_elem_of_In.
Qed.

(** A processed attempt is a pair from the lock-step listing of a
    sentence group, and the name of its image folder does not contain the
    traced marker. *)
Lemma elem_of_attempts {px} (fs : @node px) (train : bool)
    (sanity : option bool) (root : path) (x : path * path) :
  x ∈ attempts fs train sanity root →
  ∃ s name,
    s ∈ sentence_pairs fs train root ∧ x ∈ attempt_pairs fs s ∧
    py_index x.1 (-1) = Some name ∧ traced name = false.
Proof.
  unfold attempts. rewrite elem_of_concat_map.
  intros (s & Hs%kept_sen_elem_of & [Hx Hnt]%kept_tf_elem_of).
  assert (∃ name, py_index x.1 (-1) = Some name ∧ x.1 ≠ []) as (name & Hn & _).
  { destruct x as [i l]. apply elem_of_zip_l in Hx.
    by eapply glob_nonempty. }
  exists s, name. split_and!; try done.
  unfold name_traced in Hnt. by rewrite Hn in Hnt.
Qed.

Lemma contribution_writer_segment {px} (fs : @node px) (x : path * path)
    (c : acc) (p : path) :
  contribution fs x = inr c → p ∈ c.1 →
  py_index p (-3) = py_index x.1 (-1).
Proof.
  destruct x as [i l]. intros (_ & lab0 & label & _ & _ & _ & Hf)
    %contribution_inr Hp. simpl.
  apply list_elem_of_lookup in Hp as [k Hk].
  destruct (Forall2_lookup_r _ _ _ _ _ Hf Hk)
    as (img_pos & Himg & file & -> & _).
  apply list_elem_of_lookup_2, elem_of_glob in Himg as (pos & -> & _).
  change (-3)%Z with (- Z.of_nat (S (S 1)))%Z.
  by rewrite !py_index_last.
Qed.

(** C6. The entries of [image_path_list] and [label_list] are exactly
    what the processed attempts contribute, in order, and no processed
    attempt has the traced marker in its folder name: a traced
    writer-attempt contributes no path and no label.  In particular the
    writer-attempt segment of every resolved image path is free of the
    marker. *)
Theorem traced_attempts_excluded {px} (fs : @node px) (root : path)
    (tr : option (@ndarray px → result (@ndarray px))) (train : bool)
    (sanity : option bool) (ds : @dataset px) :
  __init__ fs root tr train sanity = inr ds →
  Forall (λ x, ∃ name, py_index x.1 (-1) = Some name ∧ traced name = false)
         (attempts fs train sanity root) ∧
  image_path_list ds
    = concat (map (λ x, (contributed fs x).1) (attempts fs train sanity root)) ∧
  label_list ds
    = concat (map (λ x, (contributed fs x).2) (attempts fs train sanity root)) ∧
  Forall (λ p, ∃ name, py_index p (-3) = Some name ∧ traced name = false)
         (image_path_list ds).
Proof.
  unfold __init__, mbind, result_bind.
  destruct (read_paths fs train sanity root) as [e | [paths labels]] eqn:Hr;
    [done |].
  intros [= <-]. simpl.
  apply read_paths_inr, run_attempts_inr in Hr as [Hall [= -> ->]].
  assert (Forall (λ x, ∃ name, py_index x.1 (-1) = Some name
                               ∧ traced name = false)
                 (attempts fs train sanity root)) as Hnt.
  { apply Forall_forall. intros x (s & name & _ & _ & ? & ?)%elem_of_attempts.
    eauto. }
  split_and!; try done.
  apply Forall_forall. intros p (x & Hx & Hp)%elem_of_concat_map.
  eapply Forall_forall in Hall as [c Hc]; [| done].
  eapply Forall_forall in Hnt as (name & Hname & Htr); [| done].
  unfold contributed in Hp. rewrite Hc in Hp.
  exists name. by rewrite (contribution_writer_segment fs x c p Hc Hp).
Qed.

Lemma traced_attempts_excluded_witness :
  ∃ ds : @dataset Z,
    __init__ Samples.root_traced_mismatch [] None true None = inr ds ∧
    Forall (λ p, ∃ name, py_index p (-3) = Some name ∧ traced name = false)
           (image_path_list ds).
Proof.
  eexists. split; [vm_compute; reflexivity |].
  eapply (traced_attempts_excluded Samples.root_traced_mismatch [] None
            true None).
  vm_compute. reflexivity.
Defined.

(** ** Structural mismatches *)

Lemma init_error {px} (fs : @node px) (root : path)
    (tr : option (@ndarray px → result (@ndarray px))) (train : bool)
    (sanity : option bool) (e : exn) :
  read_paths fs train sanity root = inl e →
  __init__ fs root tr train sanity = inl e.
Proof. unfold __init__, mbind, result_bind. by intros ->. Qed.

Lemma py_index_file_segment (p : path) (pos file : string) :
  py_index ((p ++ [pos]) ++ [file]) (-3) = py_index p (-1).
Proof.
  change (-3)%Z with (- Z.of_nat (S (S 1)))%Z. by rewrite !py_index_last.
Qed.





Lemma zip_app_l {A B} (la1 la2 : list A) (lb : list B) :
  zip (la1 ++ la2) lb = zip la1 lb ++ zip la2 (drop (length la1) lb).
Proof.
  revert lb. induction la1 as [|a la1 IH]; intros [|b lb]; simpl; try done.
  - by destruct la2.
  - by rewrite IH.
Qed.

(** C10.  If an image sub-subfolder of a processed writer-attempt has no
    entry matching ["*_0150_x*"], construction fails: the folder is
    neither skipped nor given a substitute file.  When the enumeration
    reaches that folder (the attempts before it completed, the counts of
    its attempt agree and the inner loop passed the sub-subfolders before
    it), the failure is the IndexError of indexing the empty match list
    at 0. *)
Theorem missing_canonical_aborts {px} (fs : @node px) (root : path)
    (tr : option (@ndarray px → result (@ndarray px))) (train : bool)
    (sanity : option bool) (x : path * path) (img_pos : path) :
  x ∈ attempts fs train sanity root →
  img_pos ∈ glob fs star x.1 →
  no_canonical fs img_pos →
  (∃ e, read_paths fs train sanity root = inl e ∧
        __init__ fs root tr train sanity = inl e) ∧
  (∀ pre post a ipre ipost lab0 ps,
     attempts fs train sanity root = pre ++ x :: post →
     run_attempts fs pre ([], []) = inr a →
     length (glob fs star x.1) = length (glob fs star x.2) →
     glob fs star x.1 = ipre ++ img_pos :: ipost →
     head (glob fs star x.2) = Some lab0 →
     pos_loop fs (lab0 ++ ["labels(sent1).json"])
              (zip ipre (glob fs star x.2)) a.1 = inr ps →
     read_paths fs train sanity root = inl IndexError ∧
     __init__ fs root tr train sanity = inl IndexError).
Proof.
  intros Hx Hpos Hno. split.
  - assert (¬ completes fs x) as Hnc.
    { intros [c Hc]. destruct x as [i l].
      apply contribution_inr in Hc as (_ & lab0 & label & _ & _ & _ & Hf).
      apply list_elem_of_lookup in Hpos as [k Hk].
      destruct (Forall2_lookup_l _ _ _ _ _ Hf Hk)
        as (p & _ & file & _ & _ & Hne & _).
      done. }
    destruct (read_paths_error fs train sanity root x Hx Hnc) as [e He].
    exists e. split; [done | by apply init_error].
  - intros pre post a ipre ipost lab0 ps Hatt Hpre Hlen Hglob Hlab0 Hps.
    assert (read_paths fs train sanity root = inl IndexError) as Hr;
      [| split; [done | by apply init_error]].
    rewrite read_paths_attempts, Hatt, run_attempts_app.
    unfold mbind at 2, result_bind at 2. rewrite Hpre. simpl.
    unfold attempt. apply Nat.eqb_eq in Hlen as Hlenb. rewrite Hlenb.
    rewrite index_or_raise_0.
    destruct (glob fs star x.2) as [|l0 ls] eqn:Hl; [done |].
    injection Hlab0 as ->.
    unfold mbind, result_bind. cbv beta iota.
    rewrite Hglob, zip_app_l, pos_loop_app.
    unfold mbind, result_bind. rewrite Hps.
    rewrite Hglob, length_app in Hlen. simpl in Hlen.
    destruct (drop (length ipre) (lab0 :: ls)) as [|lk lr] eqn:Hd.
    { apply (f_equal length) in Hd. rewrite length_drop in Hd.
      simpl in Hd. lia. }
    simpl. unfold no_canonical in Hno. by rewrite Hno.
Qed.

Lemma missing_canonical_aborts_witness :
  read_paths Samples.root_no_canonical true None [] = inl IndexError ∧
  __init__ Samples.root_no_canonical [] None true None = inl IndexError.
Proof.
  refine (proj2 (missing_canonical_aborts Samples.root_no_canonical [] None
                   true None (SamplePaths.tf "w0")
                   (SamplePaths.variant (SamplePaths.tf "w0") "v1").1 _ _ _)
            [] [] ([], [])
            [(SamplePaths.variant (SamplePaths.tf "w0") "v0").1] []
            (SamplePaths.variant (SamplePaths.tf "w0") "v0").2
            [(SamplePaths.variant (SamplePaths.tf "w0") "v0").1
               ++ ["w_0150_x1.png"]] _ _ _ _ _ _).
  - assert (attempts Samples.root_no_canonical true None []
            = [SamplePaths.tf "w0"]) as -> by (vm_compute; reflexivity).
    left.
  - assert (glob Samples.root_no_canonical star (SamplePaths.tf "w0").1
            = [(SamplePaths.variant (SamplePaths.tf "w0") "v0").1;
               (SamplePaths.variant (SamplePaths.tf "w0") "v1").1]) as ->
      by (vm_compute; reflexivity).
    right. left.
  - reflexivity.
  - reflexivity.
  - reflexivity.
  - reflexivity.
  - reflexivity.
  - reflexivity.
  - reflexivity.
Defined.

(** ** Sanity-check truncation *)

Lemma do_break_off (sanity : option bool) (train : bool) (i : nat) :
  sanity_on sanity = false → do_break sanity train i = false.
Proof. unfold do_break. by intros ->. Qed.

Lemma do_break_cutoff (sanity : option bool) (train : bool) (i : nat) :
  do_break sanity train i = true → i = cutoff train.
Proof.
  unfold do_break, cutoff_break, cutoff.
  destruct (sanity_on sanity), train; simpl; try done;
    destruct (Nat.eqb_spec i 3), (Nat.eqb_spec i 1); done.
Qed.

Lemma kept_tf_sublist (sanity off : option bool) (train : bool) (i_tf : nat)
    (zipped : list (path * path)) :
  sanity_on off = false →
  kept_tf sanity train i_tf zipped `sublist_of` kept_tf off train i_tf zipped.
Proof.
  intros Hoff. revert i_tf.
  induction zipped as [|x rest IH]; intros i_tf; simpl; [done |].
  destruct (name_traced x.1); [apply IH |].
  rewrite (do_break_off off) by done. apply sublist_skip.
  destruct (do_break sanity train i_tf); [apply sublist_nil_l | apply IH].
Qed.

Lemma kept_sen_sublist (sanity off : option bool) (train : bool) (i_sen : nat)
    (zipped : list (path * path)) :
  sanity_on off = false →
  kept_sen sanity train i_sen zipped
    `sublist_of` kept_sen off train i_sen zipped.
Proof.
  intros Hoff. revert i_sen.
  induction zipped as [|x rest IH]; intros i_sen; simpl; [done |].
  rewrite (do_break_off off) by done. apply sublist_skip.
  destruct (do_break sanity train i_sen); [apply sublist_nil_l | apply IH].
Qed.

Lemma sublist_concat_map {A B} (f g : A → list B) (l1 l2 : list A) :
  (∀ x, f x `sublist_of` g x) → l1 `sublist_of` l2 →
  concat (map f l1) `sublist_of` concat (map g l2).
Proof.
  intros Hfg. induction 1 as [|x l1 l2 _ IH | x l1 l2 _ IH]; simpl.
  - done.
  - by apply sublist_app.
  - by apply sublist_inserts_l.
Qed.

Lemma attempts_sublist {px} (fs : @node px) (train : bool)
    (sanity off : option bool) (root : path) :
  sanity_on off = false →
  attempts fs train sanity root `sublist_of` attempts fs train off root.
Proof.
  intros Hoff. unfold attempts. apply sublist_concat_map.
  - intros s. by apply kept_tf_sublist.
  - by apply kept_sen_sublist.
Qed.

Lemma Forall_sublist {A} (P : A → Prop) (l1 l2 : list A) :
  l1 `sublist_of` l2 → Forall P l2 → Forall P l1.
Proof.
  intros Hsub Hall. apply Forall_forall. intros x Hx.
  eapply Forall_forall; [exact Hall |]. by eapply sublist_subseteq.
Qed.

Lemma kept_tf_below (sanity off : option bool) (train : bool) (i_tf : nat)
    (zipped : list (path * path)) :
  sanity_on off = false → i_tf + length zipped ≤ S (cutoff train) →
  kept_tf sanity train i_tf zipped = kept_tf off train i_tf zipped.
Proof.
  intros Hoff. revert i_tf.
  induction zipped as [|x rest IH]; intros i_tf Hlen; simpl in *; [done |].
  rewrite (do_break_off off) by done.
  destruct (name_traced x.1); [apply IH; lia |]. f_equal.
  destruct (do_break sanity train i_tf) eqn:Hb; [| apply IH; lia].
  apply do_break_cutoff in Hb. destruct rest; [done | simpl in Hlen; lia].
Qed.

Lemma kept_sen_below (sanity off : option bool) (train : bool) (i_sen : nat)
    (zipped : list (path * path)) :
  sanity_on off = false → i_sen + length zipped ≤ S (cutoff train) →
  kept_sen sanity train i_sen zipped = kept_sen off train i_sen zipped.
Proof.
  intros Hoff. revert i_sen.
  induction zipped as [|x rest IH]; intros i_sen Hlen; simpl in *; [done |].
  rewrite (do_break_off off) by done. f_equal.
  destruct (do_break sanity train i_sen) eqn:Hb; [| apply IH; lia].
  apply do_break_cutoff in Hb. destruct rest; [done | simpl in Hlen; lia].
Qed.

Lemma attempts_below {px} (fs : @node px) (train : bool)
    (sanity off : option bool) (root : path) :
  sanity_on off = false → below_cutoff fs train root →
  attempts fs train sanity root = attempts fs train off root.
Proof.
  intros Hoff [Hsen Htf]. unfold attempts.
  rewrite (kept_sen_below sanity off) by (done || lia).
  f_equal. apply map_ext_in. intros s Hs.
  apply kept_tf_below; [done |].
  apply list_elem_of_In, kept_sen_elem_of in Hs.
  eapply Forall_forall in Htf; [| done]. simpl. lia.
Qed.

Lemma contributed_length {px} (fs : @node px) (x : path * path) :
  completes fs x →
  length (contributed fs x).1 = length (glob fs star x.1) ∧
  length (contributed fs x).2 = length (glob fs star x.1).
Proof.
  intros [c Hc]. unfold contributed. rewrite Hc. destruct x as [i l].
  apply contribution_inr in Hc as (Hlen & lab0 & label & _ & _ & -> & Hf).
  apply Forall2_length in Hf. rewrite length_replicate. simpl.
  split; [symmetry; exact Hf | symmetry; exact Hlen].
Qed.

Lemma run_attempts_count {px} (fs : @node px) (l : list (path * path))
    (r : acc) :
  run_attempts fs l ([], []) = inr r →
  length r.1 = sum_list (map (λ x, length (glob fs star x.1)) l).
Proof.
  intros [Hall ->]%run_attempts_inr. simpl.
  induction Hall as [|x l Hx _ IH]; simpl; [done |].
  rewrite length_app, IH. f_equal. by apply contributed_length.
Qed.

Lemma completes_nonempty {px} (fs : @node px) (x : path * path) :
  completes fs x → 1 ≤ length (glob fs star x.1).
Proof.
  intros [c Hc]. destruct x as [i l].
  apply contribution_inr in Hc as (Hlen & lab0 & _ & Hlab0 & _). simpl in *.
  rewrite Hlen. destruct (glob fs star l); [done | simpl; lia].
Qed.

Lemma sublist_sum_le {A} (f : A → nat) (l1 l2 : list A) :
  l1 `sublist_of` l2 → sum_list (map f l1) ≤ sum_list (map f l2).
Proof. induction 1; simpl; lia. Qed.

Lemma sublist_sum_lt {A} (f : A → nat) (l1 l2 : list A) :
  l1 `sublist_of` l2 → Forall (λ x, 1 ≤ f x) l2 → length l1 < length l2 →
  sum_list (map f l1) < sum_list (map f l2).
Proof.
  induction 1 as [|x l1 l2 Hsub IH | x l1 l2 Hsub IH]; simpl;
    intros Hall Hlen; [lia | |].
  - apply Forall_cons in Hall as [_ Hall]. specialize (IH Hall). lia.
  - apply Forall_cons in Hall as [Hx _].
    pose proof (sublist_sum_le f _ _ Hsub). lia.
Qed.

Lemma kept_sen_off (off : option bool) (train : bool) (i_sen : nat)
    (zipped : list (path * path)) :
  sanity_on off = false → kept_sen off train i_sen zipped = zipped.
Proof.
  intros Hoff. revert i_sen.
  induction zipped as [|x rest IH]; intros i_sen; simpl; [done |].
  rewrite do_break_off by done. by rewrite IH.
Qed.

Lemma kept_tf_off (off : option bool) (train : bool) (i_tf : nat)
    (zipped : list (path * path)) :
  sanity_on off = false →
  kept_tf off train i_tf zipped
  = List.filter (λ x, negb (name_traced x.1)) zipped.
Proof.
  intros Hoff. revert i_tf.
  induction zipped as [|x rest IH]; intros i_tf; simpl; [done |].
  destruct (name_traced x.1); simpl; [apply IH |].
  rewrite do_break_off by done. by rewrite IH.
Qed.

Lemma do_break_on (train : bool) (i : nat) :
  do_break (Some true) train i = bool_decide (i = cutoff train).
Proof.
  unfold do_break, cutoff_break, cutoff. simpl.
  destruct train; simpl;
    [destruct (Nat.eqb_spec i 3) | destruct (Nat.eqb_spec i 1)];
    by case_bool_decide.
Qed.

Lemma kept_sen_on (train : bool) (i_sen : nat) (zipped : list (path * path)) :
  i_sen ≤ cutoff train →
  kept_sen (Some true) train i_sen zipped
  = take (S (cutoff train - i_sen)) zipped.
Proof.
  revert i_sen. induction zipped as [|x rest IH]; intros i_sen Hi; [done |].
  simpl. f_equal. rewrite do_break_on. case_bool_decide as Hc.
  - subst. by rewrite Nat.sub_diag, take_0.
  - rewrite IH by lia.
    by replace (cutoff train - i_sen) with (S (cutoff train - S i_sen)) by lia.
Qed.

Lemma kept_tf_on (train : bool) (off : option bool) (i_tf : nat)
    (zipped : list (path * path)) (x : path * path) :
  sanity_on off = false → i_tf ≤ cutoff train →
  zipped !! (cutoff train - i_tf) = Some x → name_traced x.1 = false →
  kept_tf (Some true) train i_tf zipped
  = kept_tf off train i_tf (take (S (cutoff train - i_tf)) zipped).
Proof.
  intros Hoff. revert i_tf.
  induction zipped as [|y rest IH]; intros i_tf Hi Hx Hnt; [done |].
  destruct (decide (i_tf = cutoff train)) as [-> | Hne].
  - rewrite Nat.sub_diag in Hx |- *. injection Hx as ->. simpl.
    rewrite Hnt, do_break_on, bool_decide_eq_true_2 by done.
    by destruct (do_break off train (cutoff train)).
  - replace (cutoff train - i_tf) with (S (cutoff train - S i_tf)) in Hx |- *
      by lia.
    simpl in Hx. cbn [take kept_tf].
    rewrite do_break_on, bool_decide_eq_false_2 by done.
    rewrite (do_break_off off) by done.
    by rewrite (IH (S i_tf)) by (done || lia).
Qed.

Lemma length_concat_map_sublist {A B} (f g : A → list B) (l1 l2 : list A) :
  (∀ x, f x `sublist_of` g x) → l1 `sublist_of` l2 →
  length (concat (map f l1)) ≤ length (concat (map g l2)).
Proof. intros. by apply sublist_length, sublist_concat_map. Qed.

(** A group past the cut-off index with an attempt pair that is not
    traced: sanity mode processes fewer attempts. *)
Lemma group_cut_off_attempts {px} (fs : @node px) (train : bool)
    (off : option bool) (root : path) :
  sanity_on off = false → group_cut_off fs train root →
  length (attempts fs train (Some true) root)
  < length (attempts fs train off root).
Proof.
  intros Hoff (pre & s & post & x & Hsp & Hpre & Hx & Hnt).
  unfold attempts. rewrite Hsp, (kept_sen_off off) by done.
  rewrite kept_sen_on, Nat.sub_0_r by lia.
  rewrite take_app_le by lia.
  rewrite map_app, concat_app, length_app. simpl. rewrite length_app.
  assert (1 ≤ length (kept_tf off train 0 (attempt_pairs fs s))) as Hs.
  { rewrite kept_tf_off by done.
    assert (x ∈ List.filter (λ x, negb (name_traced x.1)) (attempt_pairs fs s))
      as Hin by (apply elem_of_List_filter; by rewrite Hnt).
    destruct (List.filter _ _); [by apply elem_of_nil in Hin | simpl; lia]. }
  pose proof (length_concat_map_sublist
                (λ s, kept_tf (Some true) train 0 (attempt_pairs fs s))
                (λ s, kept_tf off train 0 (attempt_pairs fs s))
                (take (S (cutoff train)) pre) pre) as Hle.
  specialize (Hle (λ s, kept_tf_sublist _ off train 0 _ Hoff)
                  (sublist_take _ _)).
  lia.
Qed.

(** A processed group with an attempt pair at the cut-off index and a
    later one, neither traced: sanity mode processes fewer attempts. *)
Lemma attempt_cut_off_attempts {px} (fs : @node px) (train : bool)
    (off : option bool) (root : path) :
  sanity_on off = false → attempt_cut_off fs train root →
  length (attempts fs train (Some true) root)
  < length (attempts fs train off root).
Proof.
  intros Hoff (pre & s & post & zpre & x & zpost & y & Hsp & Hpre & Hz & Hzpre
               & Hx & Hy & Hynt).
  unfold attempts. rewrite Hsp, (kept_sen_off off) by done.
  rewrite kept_sen_on, Nat.sub_0_r by lia.
  rewrite take_app, (take_ge pre) by lia.
  replace (S (cutoff train) - length pre)
    with (S (cutoff train - length pre)) by lia.
  cbn [take]. rewrite !map_app, !concat_app, !length_app. simpl.
  rewrite !length_app.
  assert (length (kept_tf (Some true) train 0 (attempt_pairs fs s))
          < length (kept_tf off train 0 (attempt_pairs fs s))) as Hs.
  { rewrite (kept_tf_on train off 0 _ x); [| done | lia | |done].
    - rewrite Nat.sub_0_r, !(kept_tf_off off), Hz by done.
      rewrite take_app, take_ge, Hzpre, Nat.sub_succ_l, Nat.sub_diag by lia.
      cbn [take]. rewrite take_0, !List.filter_app, !length_app. simpl.
      rewrite Hx. simpl.
      assert (y ∈ List.filter (λ x, negb (name_traced x.1)) zpost)
        as Hin by (apply elem_of_List_filter; by rewrite Hynt).
      destruct (List.filter _ zpost); [by apply elem_of_nil in Hin |].
      simpl. lia.
    - rewrite Nat.sub_0_r, Hz, lookup_app_r, Hzpre, Nat.sub_diag by lia.
      done. }
  pose proof (length_concat_map_sublist
                (λ s, kept_tf (Some true) train 0 (attempt_pairs fs s))
                (λ s, kept_tf off train 0 (attempt_pairs fs s))
                pre pre (λ s, kept_tf_sublist _ off train 0 _ Hoff)
                (reflexivity _)) as Hle1.
  pose proof (length_concat_map_sublist
                (λ s, kept_tf (Some true) train 0 (attempt_pairs fs s))
                (λ s, kept_tf off train 0 (attempt_pairs fs s))
                (take (cutoff train - length pre) post) post
                (λ s, kept_tf_sublist _ off train 0 _ Hoff)
                (sublist_take _ _)) as Hle2.
  lia.
Qed.

(** C3, as the code has it.  On a root on which full resolution
    succeeds, resolution with sanity_check enabled succeeds too and its
    samples are a subsequence of the full ones, so its count is at most
    the full count.  The count is strictly smaller whenever the cut-off
    removes a processed writer-attempt, as it does when a sentence group
    past loop index 3 (training; 1 for validation) holds a writer-attempt
    that is not traced, or when a group up to that index has a
    writer-attempt at index 3 (resp. 1) and a later one, neither traced.
    It is not always smaller: on a root with no more than 4 (resp. 2)
    sentence groups and no more than 4 (resp. 2) writer-attempt pairs per
    group both modes return the same result. *)
Theorem sanity_truncation {px} (fs : @node px) (train : bool)
    (off : option bool) (root : path) :
  sanity_on off = false →
  (∀ full, read_paths fs train off root = inr full →
           ∃ small, read_paths fs train (Some true) root = inr small ∧
                    small.1 `sublist_of` full.1 ∧
                    small.2 `sublist_of` full.2 ∧
                    length small.1 ≤ length full.1) ∧
  (∀ full small,
     read_paths fs train off root = inr full →
     read_paths fs train (Some true) root = inr small →
     length (attempts fs train (Some true) root)
       < length (attempts fs train off root) ∨
     group_cut_off fs train root ∨ attempt_cut_off fs train root →
     length small.1 < length full.1) ∧
  (below_cutoff fs train root →
   read_paths fs train (Some true) root = read_paths fs train off root).
Proof.
  intros Hoff. split_and!.
  - intros full [Hall ->]%read_paths_inr%run_attempts_inr.
    pose proof (attempts_sublist fs train (Some true) off root Hoff) as Hsub.
    eexists. split.
    + apply read_paths_inr, run_attempts_inr. split; [| reflexivity].
      by eapply Forall_sublist.
    + simpl. split_and!.
      * by apply sublist_concat_map.
      * by apply sublist_concat_map.
      * apply sublist_length. by apply sublist_concat_map.
  - intros full small Hfull%read_paths_inr Hsmall%read_paths_inr Hcut.
    assert (length (attempts fs train (Some true) root)
            < length (attempts fs train off root)) as Hlt.
    { destruct Hcut as [? | [? | ?]];
        [done | by apply group_cut_off_attempts
         | by apply attempt_cut_off_attempts]. }
    rewrite (run_attempts_count fs _ _ Hfull).
    rewrite (run_attempts_count fs _ _ Hsmall).
    apply sublist_sum_lt; [by apply attempts_sublist | | done].
    apply run_attempts_inr in Hfull as [Hall _].
    eapply Forall_impl; [exact Hall |]. apply completes_nonempty.
  - intros Hbelow. rewrite !read_paths_attempts.
    by rewrite (attempts_below fs train (Some true) off root).
Qed.

Lemma sanity_truncation_witness :
  (∃ r, read_paths Samples.root_2x2x3 true (Some true) [] = inr r ∧
        read_paths Samples.root_2x2x3 true None [] = inr r ∧
        length r.1 = 12%nat) ∧
  (∃ small full,
     read_paths EdgeSamples.root_five_attempts true (Some true) []
       = inr small ∧
     read_paths EdgeSamples.root_five_attempts true None [] = inr full ∧
     length small.1 = 4%nat ∧ length full.1 = 5%nat ∧
     length small.1 < length full.1) ∧
  (∃ small full,
     read_paths NulSamples.root_five_groups true (Some true) []
       = inr small ∧
     read_paths NulSamples.root_five_groups true None [] = inr full ∧
     length small.1 = 4%nat ∧ length full.1 = 5%nat ∧
     length small.1 < length full.1).
Proof.
  split_and!.
  - eexists. split; [| split; [vm_compute; reflexivity | reflexivity]].
    etrans; [| vm_compute; reflexivity].
    apply (sanity_truncation Samples.root_2x2x3 true None []);
      [reflexivity |].
    split; [vm_compute; lia |].
    repeat constructor; vm_compute; lia.
  - do 2 eexists. split; [vm_compute; reflexivity |].
    split; [vm_compute; reflexivity |].
    split; [reflexivity |]. split; [reflexivity |].
    eapply (proj1 (proj2 (sanity_truncation EdgeSamples.root_five_attempts
                            true None [] eq_refl)));
      [vm_compute; reflexivity | vm_compute; reflexivity |].
    right. right.
    exists [], (SamplePaths.images ++ ["s0"], SamplePaths.labels ++ ["s0"]),
      [], [SamplePaths.tf "w0"; SamplePaths.tf "w1"; SamplePaths.tf "w2"],
      (SamplePaths.tf "w3"), [SamplePaths.tf "w4"], (SamplePaths.tf "w4").
    split_and!; try reflexivity.
    + simpl. lia.
    + left.
  - do 2 eexists. split; [vm_compute; reflexivity |].
    split; [vm_compute; reflexivity |].
    split; [reflexivity |]. split; [reflexivity |].
    eapply (proj1 (proj2 (sanity_truncation NulSamples.root_five_groups
                            true None [] eq_refl)));
      [vm_compute; reflexivity | vm_compute; reflexivity |].
    right. left.
    exists (take 4 (sentence_pairs NulSamples.root_five_groups true [])),
      (SamplePaths.images ++ ["s4"], SamplePaths.labels ++ ["s4"]), [],
      (SamplePaths.images ++ ["s4"; "w0"], SamplePaths.labels ++ ["s4"; "w0"]).
    split_and!.
    + vm_compute. reflexivity.
    + vm_compute. lia.
    + vm_compute. left.
    + reflexivity.
Defined.

(** C3, counterexample.  The root with 2 sentence groups, 2 writer-
    attempts each and 3 variant sub-subfolders each resolves to 12
    samples with sanity_check on and training selected, the same 12 as
    without it. *)
Lemma sanity_not_smaller_counterexample :
  length (sentence_pairs Samples.root_2x2x3 true []) = 2%nat ∧
  Forall (λ s, length (attempt_pairs Samples.root_2x2x3 s) = 2%nat)
         (sentence_pairs Samples.root_2x2x3 true []) ∧
  ∃ small full,
    read_paths Samples.root_2x2x3 true (Some true) [] = inr small ∧
    read_paths Samples.root_2x2x3 true None [] = inr full ∧
    length small.1 = 12%nat ∧ length full.1 = 12%nat ∧
    ¬ (length small.1 < length full.1) ∧ ¬ (length small.1 < 12).
Proof.
  split; [reflexivity |]. split; [repeat constructor |].
  do 2 eexists. split; [vm_compute; reflexivity |].
  split; [vm_compute; reflexivity |]. simpl. lia.
Qed.

(** * Further properties of the code *)

(** ** The sampler at its edges *)

Lemma py_index_None {A} (l : list A) (i : Z) :
  py_index l i = None ↔
  (i < - Z.of_nat (length l))%Z ∨ (Z.of_nat (length l) ≤ i)%Z.
Proof.
  unfold py_index.
  destruct (Z.leb_spec 0 i).
  - rewrite lookup_ge_None. lia.
  - destruct (Z.leb_spec (- Z.of_nat (length l)) i).
    + rewrite lookup_ge_None. lia.
    + split; [lia | done].
Qed.

(** X1.  An index outside [-len, len) makes [__getitem__] end with the
    IndexError of [self.label_list[idx]], before anything is drawn or
    read; on an empty dataset that is every index.  [read_image] does the
    same on [image_path_list]. *)
Theorem getitem_out_of_range {px} (fs : @node px) (float32 : px → px)
    (w : @world px) (idx : Z) :
  (idx < - Z.of_nat (length (label_list (self w))))%Z ∨
  (Z.of_nat (length (label_list (self w))) ≤ idx)%Z →
  __getitem__ fs float32 idx w = (inl IndexError, w) ∧
  (length (image_path_list (self w)) = length (label_list (self w)) →
   read_image fs idx w = (inl IndexError, w)).
Proof.
  intros Hidx. split.
  - apply py_index_None in Hidx.
    unfold __getitem__, draw_indices, mbind, M_bind, get_self, lift.
    simpl. unfold index_or_raise. by rewrite Hidx.
  - intros Hlen. rewrite <- Hlen in Hidx. apply py_index_None in Hidx.
    rewrite read_image_run. unfold index_or_raise. by rewrite Hidx.
Qed.

Lemma getitem_out_of_range_witness :
  __getitem__ (Dir []) (λ v : Z, v) 2 (Samples.world_of Samples.ds_ab)
  = (inl IndexError, Samples.world_of Samples.ds_ab).
Proof.
  apply (getitem_out_of_range (Dir []) (λ v, v)
           (Samples.world_of Samples.ds_ab) 2).
  right. simpl. lia.
Defined.

Lemma neg_candidates_single_writer (labels : list string) (a : string) :
  Forall (λ l, l = a) labels → neg_candidates labels a = [].
Proof.
  intros Hall. destruct (neg_candidates labels a) as [|n r] eqn:Hn; [done |].
  assert (n ∈ neg_candidates labels a) as Hin by (rewrite Hn; left).
  apply elem_of_neg_candidates in Hin as (k & b & _ & Hk & Hb).
  apply list_elem_of_lookup_2 in Hk.
  eapply Forall_forall in Hall; [| done]. simpl in Hall. by subst.
Qed.

(** X2.  On a dataset all of whose samples carry one writer-id no triplet can
    be drawn: [__getitem__] ends with the ValueError of
    [np.random.choice] for every valid index, the dataset object
    unchanged. *)
Theorem getitem_single_writer {px} (fs : @node px) (float32 : px → px)
    (w : @world px) (idx : Z) (a : string) :
  py_index (label_list (self w)) idx = Some a →
  Forall (λ l, l = a) (label_list (self w)) →
  ∃ w', __getitem__ fs float32 idx w = (inl ValueError, w') ∧
        self w' = self w.
Proof.
  intros Ha Hall.
  unfold __getitem__, mbind, M_bind at 1.
  rewrite (draw_indices_run w idx a Ha).
  rewrite (neg_candidates_single_writer _ a Hall).
  unfold mbind, M_bind.
  destruct (pos_candidates (label_list (self w)) idx a) as [|p r] eqn:Hp.
  - exists w. by rewrite np_random_choice_nil.
  - destruct (np_random_choice_inr (p :: r) w) as (x & _ & ->); [done |].
    rewrite np_random_choice_nil. eauto.
Qed.

Lemma getitem_single_writer_witness :
  ∃ w', __getitem__ (Dir []) (λ v : Z, v) 0
          (Samples.world_of EdgeSamples.ds_aa) = (inl ValueError, w') ∧
        self w' = EdgeSamples.ds_aa.
Proof.
  apply (getitem_single_writer (Dir []) (λ v, v)
           (Samples.world_of EdgeSamples.ds_aa) 0 "a").
  - reflexivity.
  - repeat constructor.
Defined.

Lemma np_random_choice_at {px} (a : list Z) (x : Z) (r : nat)
    (w : @world px) :
  a !! r = Some x → entropy w (drawn w) = r →
  np_random_choice a w = (inr x, World (self w) (entropy w) (S (drawn w))).
Proof.
  intros Hr Hw. destruct a as [|y a]; [done |].
  unfold np_random_choice. rewrite Hw.
  pose proof (lookup_lt_Some _ _ _ Hr) as Hlt.
  rewrite Nat.mod_small by done.
  do 2 f_equal. by apply nth_lookup_Some with (d := 0%Z).
Qed.

(** X3.  Every admissible triplet can be drawn: for each positive candidate
    [p] and negative candidate [n] of a valid anchor there is a stream of
    random draws on which the two [np.random.choice] calls return exactly
    [(p, n)]. *)
Theorem draw_indices_complete {px} (ds : @dataset px) (idx : Z) (a : string)
    (p n : Z) (d : nat) :
  py_index (label_list ds) idx = Some a →
  p ∈ pos_candidates (label_list ds) idx a →
  n ∈ neg_candidates (label_list ds) a →
  ∃ ent, draw_indices idx (World ds ent d)
         = (inr (p, n), World ds ent (S (S d))).
Proof.
  intros Ha [rp Hrp]%list_elem_of_lookup_1 [rn Hrn]%list_elem_of_lookup_1.
  exists (λ k, if (k =? d)%nat then rp else rn).
  rewrite (draw_indices_run _ idx a) by done. simpl.
  unfold mbind, M_bind.
  rewrite (np_random_choice_at _ p rp)
    by (done || simpl; by rewrite Nat.eqb_refl).
  simpl. rewrite (np_random_choice_at _ n rn); [reflexivity | done |].
  cbn [entropy drawn].
  by rewrite (proj2 (Nat.eqb_neq (S d) d)) by lia.
Qed.

Lemma draw_indices_complete_witness :
  ∃ ent, draw_indices 0 (World Samples.ds_aba ent 0)
         = (inr (2%Z, 1%Z), World Samples.ds_aba ent 2).
Proof.
  apply (draw_indices_complete Samples.ds_aba 0 "a" 2 1 0).
  - reflexivity.
  - apply elem_of_pos_candidates. split; [lia |]. by exists 2, "a".
  - apply elem_of_neg_candidates. exists 1, "b". split_and!; done.
Defined.

(** X4.  Addressed through a negative (wrap-around) index, the anchor's own
    position stays among the positive candidates: the comparison
    [pos_indices == idx] matches no position, so nothing is deleted and
    the positive sample may be the anchor itself. *)
Theorem negative_anchor_own_positive (labels : list string) (idx : Z)
    (a : string) :
  (idx < 0)%Z → py_index labels idx = Some a →
  (Z.of_nat (length labels) + idx)%Z ∈ pos_candidates labels idx a ∧
  py_index labels (Z.of_nat (length labels) + idx) = Some a ∧
  pos_candidates labels idx a
  = np_where (np_equal (np_asarray labels) a).
Proof.
  intros Hneg Ha.
  assert (labels !! Z.to_nat (Z.of_nat (length labels) + idx) = Some a
          ∧ (0 ≤ Z.of_nat (length labels) + idx)%Z) as [Hl Hge].
  { unfold py_index in Ha.
    destruct (Z.leb_spec 0 idx); [lia |].
    destruct (Z.leb_spec (- Z.of_nat (length labels)) idx); [| done].
    split; [done | lia]. }
  split_and!.
  - apply elem_of_pos_candidates. split; [lia |].
    exists (Z.to_nat (Z.of_nat (length labels) + idx)), a.
    split_and!; [lia | done | done].
  - by rewrite py_index_nonneg.
  - rewrite pos_candidates_filter.
    apply forallb_filter_id, forallb_forall.
    intros p (k & l & -> & _)%list_elem_of_In%elem_of_same_label.
    apply negb_true_iff, Z.eqb_neq. lia.
Qed.

Lemma negative_anchor_own_positive_witness :
  (1%Z ∈ pos_candidates ["a"; "b"] (-1) "b").
Proof.
  apply (negative_anchor_own_positive ["a"; "b"] (-1) "b"); [lia | reflexivity].
Defined.

(** ** The image reader at its edges *)

(** X5.  The [while] loop of [read_image] makes at most one attempt per entry
    of the directory listing plus one: any fuel from [probe_fuel] on
    gives the same outcome, and that outcome is never the exhaustion of
    the fuel. *)
Theorem read_image_loop_bounded {px} (fs : @node px) (image_path : path)
    (fuel : nat) :
  probe_fuel fs image_path ≤ fuel →
  read_image_loop fs fuel image_path (-1)
  = read_image_loop fs (probe_fuel fs image_path) image_path (-1) ∧
  read_image_loop fs fuel image_path (-1) ≠ inl FuelExhausted.
Proof.
  intros Hfuel.
  assert (read_image_loop fs fuel image_path (-1)
          = first_opened fs (image_path :: probes fs image_path)) as Hrun.
  { change (-1)%Z with (- Z.of_nat 1)%Z. rewrite read_image_loop_probes.
    - unfold probes. by destruct (reverse _).
    - unfold probe_fuel in Hfuel.
      rewrite length_drop, length_reverse. lia. }
  split.
  - by rewrite Hrun, read_image_loop_run.
  - rewrite Hrun. by intros ?%first_opened_error.
Qed.

Lemma read_image_loop_bounded_witness :
  read_image_loop Samples.root_probe 100 ["d"; "w_0150_x1.png"] (-1)
  ≠ inl FuelExhausted.
Proof.
  apply (read_image_loop_bounded Samples.root_probe ["d"; "w_0150_x1.png"]
           100).
  vm_compute. lia.
Defined.

(** X6.  A recorded file on which [Image.open] raises and whose directory
    lists fewer than two entries has no substitute: [read_image] ends
    with IndexError. *)
Theorem read_image_no_sibling {px} (fs : @node px) (idx : Z) (w : @world px)
    (image_path : path) :
  py_index (image_path_list (self w)) idx = Some image_path →
  Image_open fs image_path = None →
  length (glob fs star (parent image_path)) ≤ 1 →
  read_image fs idx w = (inl IndexError, w).
Proof.
  intros Hp Hopen Hlen. rewrite read_image_run.
  unfold index_or_raise. rewrite Hp. unfold mbind, result_bind. simpl.
  rewrite Hopen. unfold probes.
  destruct (glob fs star (parent image_path)) as [|f [|g r]];
    [done | done | simpl in Hlen; lia].
Qed.

Lemma read_image_no_sibling_witness :
  read_image EdgeSamples.root_lonely 0
    (Samples.world_of EdgeSamples.ds_lonely)
  = (inl IndexError, Samples.world_of EdgeSamples.ds_lonely).
Proof.
  apply (read_image_no_sibling EdgeSamples.root_lonely 0
           (Samples.world_of EdgeSamples.ds_lonely) ["d"; "w_0150_x1.png"]).
  - reflexivity.
  - reflexivity.
  - vm_compute. lia.
Defined.

Lemma first_opened_inr {px} (fs : @node px) (l : list path)
    (image : @pil_image px) :
  first_opened fs l = inr image →
  ∃ q, q ∈ l ∧ Image_open fs q = Some image.
Proof.
  induction l as [|q l IH]; simpl; [done |].
  destruct (Image_open fs q) as [a'|] eqn:Hq.
  - intros [= ->]. exists q. split; [left | done].
  - intros (q' & Hin & Hq')%IH. exists q'. split; [by right | done].
Qed.

Lemma elem_of_probes {px} (fs : @node px) (p q : path) :
  q ∈ p :: probes fs p → q = p ∨ q ∈ glob fs star (parent p).
Proof.
  intros [-> | Hq]%elem_of_cons; [by left | right].
  unfold probes in Hq. apply elem_of_reverse.
  destruct (reverse (glob fs star (parent p))) as [|x r]; [done |].
  by right.
Qed.

(** X7.  What [read_image] returns is always the first three channels of a
    file that decodes and that is either the recorded file or an entry of
    the recorded file's own directory; the world is left as it was. *)
Theorem read_image_source {px} (fs : @node px) (idx : Z) (w w' : @world px)
    (b : @ndarray px) :
  read_image fs idx w = (inr b, w') →
  w' = w ∧
  ∃ image_path q a,
    py_index (image_path_list (self w)) idx = Some image_path ∧
    (q = image_path ∨ q ∈ glob fs star (parent image_path)) ∧
    Image_open fs q = Some (PIL (Some a)) ∧ first3 a = inr b.
Proof.
  rewrite read_image_run. unfold index_or_raise, mbind, result_bind.
  destruct (py_index (image_path_list (self w)) idx) as [p|] eqn:Hp;
    [| done].
  destruct (first_opened fs (p :: probes fs p)) as [|[[a|]]] eqn:Hd;
    [done | | done].
  simpl. intros [= Hb <-]. split; [done |].
  apply first_opened_inr in Hd as (q & Hq & Ha).
  exists p, q, a. split_and!; try done. by apply elem_of_probes.
Qed.

Lemma read_image_source_witness :
  ∃ q a,
    q ∈ glob Samples.root_probe star ["d"] ∧
    Image_open Samples.root_probe q = Some (PIL (Some a)) ∧
    first3 a = inr (Arr3 1 1 3 (λ _ _ _, 30%Z)).
Proof.
  destruct (read_image_source Samples.root_probe 0
              (Samples.world_of Samples.ds_probe)
              (Samples.world_of Samples.ds_probe)
              (Arr3 1 1 3 (λ _ _ _, 30%Z)))
    as (_ & p & q & a & Hp & Hq & Ha & Hb); [reflexivity |].
  injection Hp as <-. exists q, a. split_and!; try done.
  destruct Hq as [-> | Hq]; [discriminate Ha | exact Hq].
Defined.



(** ** The shape of a triplet *)

Lemma M_bind_inr {px A B} (m : @M px A) (k : A → @M px B) (w w' : @world px)
    (b : B) :
  (m ≫= k) w = (inr b, w') →
  ∃ a w1, m w = (inr a, w1) ∧ k a w1 = (inr b, w').
Proof.
  unfold mbind, M_bind. destruct (m w) as [[e | a] w1]; [done | eauto].
Qed.

Lemma first3_inr {px} (a b : @ndarray px) :
  first3 a = inr b →
  ∃ d0 d1 d2 g, a = Arr3 d0 d1 d2 g ∧ b = Arr3 d0 d1 (d2 `min` 3) g.
Proof. destruct a; simpl; [done |]. intros [= <-]. eauto 10. Qed.

Lemma convert_to_tensor_inr {px} (float32 : px → px) (x t : @ndarray px) :
  convert_to_tensor float32 x = inr t →
  ∃ d0 d1 d2 g,
    x = Arr3 d0 d1 d2 g ∧
    t = Arr3 d2 d0 d1 (λ c i j, float32 (g i j c)).
Proof. destruct x; simpl; [done |]. intros [= <-]. eauto 10. Qed.

Lemma augment_inr {px} (image image' : @ndarray px) (w w' : @world px) :
  augment image w = (inr image', w') →
  w' = w ∧ match transform (self w) with
           | Some t => t image = inr image'
           | None => image' = image
           end.
Proof.
  unfold augment, mbind, M_bind, get_self, lift, mret, M_ret.
  destruct (transform (self w)); by intros [= <- <-].
Qed.

Lemma read_image_first3 {px} (fs : @node px) (i : Z) (w w' : @world px)
    (b : @ndarray px) :
  read_image fs i w = (inr b, w') → w' = w ∧ ∃ a, first3 a = inr b.
Proof.
  rewrite read_image_run. unfold index_or_raise, mbind, result_bind.
  destruct (py_index (image_path_list (self w)) i) as [p|]; [| done].
  destruct (first_opened fs (p :: probes fs p)) as [|[[a|]]];
    [done | | done].
  simpl. intros [= Hb <-]. eauto.
Qed.

(** X9.  A successful [__getitem__] returns three 3-dimensional tensors.
    Without an augmentation transform each of them is channel-first with
    at most 3 channels: its first dimension is the channel count left by
    [[:, :, :3]] and its other two are the height and width of the decoded
    image. *)
Theorem getitem_tensor_shape {px} (fs : @node px) (float32 : px → px)
    (idx : Z) (w w' : @world px) (ta tp tn : @ndarray px) :
  __getitem__ fs float32 idx w = (inr (ta, tp, tn), w') →
  Forall (λ t, ∃ c h wd g,
            t = Arr3 c h wd g ∧ (transform (self w) = None → c ≤ 3))
         [ta; tp; tn].
Proof.
  unfold __getitem__. intros ([p n] & w0 & Hdraw & Hfetch)%M_bind_inr.
  pose proof (keeps_self_draw_indices idx w) as Hself.
  rewrite Hdraw in Hself. simpl in Hself.
  unfold fetch_triplet in Hfetch.
  apply M_bind_inr in Hfetch as (a1 & w1 & Hr1 & Hfetch).
  apply M_bind_inr in Hfetch as (a2 & w2 & Hr2 & Hfetch).
  apply M_bind_inr in Hfetch as (a3 & w3 & Hr3 & Hfetch).
  apply M_bind_inr in Hfetch as (b1 & w4 & Ha1 & Hfetch).
  apply M_bind_inr in Hfetch as (b2 & w5 & Ha2 & Hfetch).
  apply M_bind_inr in Hfetch as (b3 & w6 & Ha3 & Hfetch).
  apply M_bind_inr in Hfetch as (t1 & w7 & Hc1 & Hfetch).
  apply M_bind_inr in Hfetch as (t2 & w8 & Hc2 & Hfetch).
  apply M_bind_inr in Hfetch as (t3 & w9 & Hc3 & Hfetch).
  injection Hfetch as <- <- <- <-.
  apply read_image_first3 in Hr1
    as (-> & ? & (? & ? & c1 & ? & _ & ->)%first3_inr).
  apply read_image_first3 in Hr2
    as (-> & ? & (? & ? & c2 & ? & _ & ->)%first3_inr).
  apply read_image_first3 in Hr3
    as (-> & ? & (? & ? & c3 & ? & _ & ->)%first3_inr).
  apply augment_inr in Ha1 as [-> Ha1].
  apply augment_inr in Ha2 as [-> Ha2].
  apply augment_inr in Ha3 as [-> Ha3].
  rewrite Hself in Ha1, Ha2, Ha3.
  unfold lift in Hc1, Hc2, Hc3.
  injection Hc1 as Hc1 <-. injection Hc2 as Hc2 <-. injection Hc3 as Hc3 <-.
  apply convert_to_tensor_inr in Hc1 as (? & ? & ? & ? & -> & ->).
  apply convert_to_tensor_inr in Hc2 as (? & ? & ? & ? & -> & ->).
  apply convert_to_tensor_inr in Hc3 as (? & ? & ? & ? & -> & ->).
  repeat constructor; do 4 eexists; (split; [reflexivity |]);
    intros Hnone; rewrite Hnone in *; simplify_eq; lia.
Qed.

Lemma getitem_tensor_shape_witness :
  ∃ ta tp tn w',
    __getitem__ Samples.root_probe (λ v : Z, v) 0
      (Samples.world_of ds_triplet) = (inr (ta, tp, tn), w') ∧
    Forall (λ t, ∃ c h wd g,
              t = Arr3 c h wd g ∧ (transform ds_triplet = None → c ≤ 3))
           [ta; tp; tn].
Proof.
  do 4 eexists. split; [vm_compute; reflexivity |].
  eapply (getitem_tensor_shape Samples.root_probe (λ v, v) 0
            (Samples.world_of ds_triplet)).
  vm_compute. reflexivity.
Defined.

(** ** The identity index *)

(** X10.  Distinct writer-ids get distinct codes, and every code is the
    decimal string of a number below the count of distinct ids. *)
Theorem label_to_integer_injective (labels : list string)
    (k1 k2 v : string) :
  label_to_integer labels !! k1 = Some v →
  label_to_integer labels !! k2 = Some v →
  k1 = k2 ∧ ∃ i, v = str i ∧ i < length (np_unique labels).
Proof.
  intros (i1 & Hi1 & ->)%label_to_integer_lookup
         (i2 & Hi2 & Heq)%label_to_integer_lookup.
  apply (inj pretty) in Heq as ->.
  split; [congruence |]. exists i2. split; [done |].
  by eapply lookup_lt_Some.
Qed.

Lemma label_to_integer_injective_witness :
  "c" = "c" ∧ ∃ i, "2" = str i ∧ i < length (np_unique ["b"; "a"; "c"; "a"]).
Proof.
  apply (label_to_integer_injective ["b"; "a"; "c"; "a"] "c" "c" "2");
    reflexivity.
Defined.

(** X11.  After construction every label of [label_list] has a code in
    [label2int_map] under the form numpy stores it in, that is with its
    trailing NUL characters dropped.  A label that ends in no NUL is
    itself a key of the map; a label that ends in a NUL is not. *)
Theorem init_every_label_coded {px} (fs : @node px) (root : path)
    (tr : option (@ndarray px → result (@ndarray px))) (train : bool)
    (sanity : option bool) (ds : @dataset px) (idx : Z) (a : string) :
  __init__ fs root tr train sanity = inr ds →
  py_index (label_list ds) idx = Some a →
  (∃ i, label2int_map ds !! np_str a = Some (str i) ∧
        i < length (np_unique (label_list ds))) ∧
  (np_str a = a → ∃ i, label2int_map ds !! a = Some (str i)) ∧
  (np_str a ≠ a → label2int_map ds !! a = None).
Proof.
  unfold __init__, mbind, result_bind.
  destruct (read_paths fs train sanity root) as [|[paths labels]]; [done |].
  intros [= <-]. simpl. intros [k Hk]%py_index_Some_lookup.
  assert (∃ i, label_to_integer labels !! np_str a = Some (str i) ∧
               i < length (np_unique labels)) as (i & Hi & Hlt).
  { assert (np_str a ∈ np_unique labels) as Hin.
    { apply elem_of_np_unique, elem_of_np_asarray. exists a.
      split; [by eapply list_elem_of_lookup_2 | done]. }
    apply list_elem_of_lookup in Hin as [i Hi].
    exists i. split; [| by eapply lookup_lt_Some].
    apply label_to_integer_lookup. eauto. }
  split_and!; [eauto | intros <-; eauto |].
  intros Hne. destruct (label_to_integer labels !! a) as [v|] eqn:Hv; [| done].
  apply label_to_integer_lookup in Hv as (j & Hj & _).
  by apply list_elem_of_lookup_2, np_unique_stored in Hj.
Qed.

Lemma init_every_label_coded_witness :
  ∃ ds : @dataset Z,
    __init__ Samples.root_2x2x3 [] None true None = inr ds ∧
    ∃ i, label2int_map ds !! "id1" = Some (str i).
Proof.
  eexists. split; [vm_compute; reflexivity |].
  eapply (init_every_label_coded Samples.root_2x2x3 [] None true None _ 3).
  - vm_compute. reflexivity.
  - reflexivity.
  - reflexivity.
Defined.

Lemma np_unique_same_ids (l1 l2 : list string) :
  (∀ x, x ∈ l1 ↔ x ∈ l2) → np_unique l1 = np_unique l2.
Proof.
  intros Hsame.
  apply (StronglySorted_unique_strong str_lt);
    [| apply np_unique_sorted | apply np_unique_sorted |].
  - intros x1 x2 _ _ H12 H21. destruct (str_lt_irrefl x1). by etrans.
  - apply NoDup_Permutation.
    + apply strictly_sorted_NoDup, np_unique_sorted.
    + apply strictly_sorted_NoDup, np_unique_sorted.
    + intros x. rewrite !elem_of_np_unique, !elem_of_np_asarray.
      split; intros (l & Hl & ->); exists l; (split; [by apply Hsame | done]).
Qed.

(** X12.  The codes depend only on which writer-ids occur: two label lists with
    the same ids, in whatever order and multiplicity, give the same
    map. *)
Theorem label_to_integer_same_ids (l1 l2 : list string) :
  (∀ x, x ∈ l1 ↔ x ∈ l2) → label_to_integer l1 = label_to_integer l2.
Proof.
  intros Hsame. unfold label_to_integer.
  by rewrite (np_unique_same_ids l1 l2).
Qed.

Lemma label_to_integer_same_ids_witness :
  label_to_integer ["b"; "a"; "b"] = label_to_integer ["a"; "b"].
Proof.
  apply (label_to_integer_same_ids ["b"; "a"; "b"] ["a"; "b"]).
  intros x. rewrite !elem_of_cons, !elem_of_nil. tauto.
Defined.

(** ** The path resolver at its edges *)

Lemma zip_nil_r {A B} (l : list A) : zip l ([] : list B) = [].
Proof. by destruct l. Qed.

(** X13.  When the image tree or the label tree of the selected split lists
    nothing (it is missing, is not a directory or is empty), construction
    does not fail: it yields an empty dataset with an empty code map. *)
Theorem read_paths_missing_tree {px} (fs : @node px) (root : path)
    (tr : option (@ndarray px → result (@ndarray px))) (train : bool)
    (sanity : option bool) :
  glob fs star (image_p root train) = [] ∨
  glob fs star (label_p root train) = [] →
  read_paths fs train sanity root = inr ([], []) ∧
  ∃ ds, __init__ fs root tr train sanity = inr ds ∧
        __len__ ds = 0 ∧ image_path_list ds = [] ∧ label2int_map ds = ∅.
Proof.
  intros Hnil.
  assert (read_paths fs train sanity root = inr ([], [])) as Hr.
  { unfold read_paths. destruct Hnil as [-> | ->]; [done |].
    by rewrite zip_nil_r. }
  split; [done |]. unfold __init__. rewrite Hr. simpl. eauto.
Qed.

Lemma read_paths_missing_tree_witness :
  read_paths Samples.root_2x2x3 false (Some true) [] = inr ([], []).
Proof.
  apply (read_paths_missing_tree Samples.root_2x2x3 [] None false
           (Some true)).
  left. reflexivity.
Defined.

(** X14.  The size of a constructed dataset is the number of image
    sub-subfolders of the processed writer-attempts: one sample per
    sub-subfolder. *)
Theorem init_sample_count {px} (fs : @node px) (root : path)
    (tr : option (@ndarray px → result (@ndarray px))) (train : bool)
    (sanity : option bool) (ds : @dataset px) :
  __init__ fs root tr train sanity = inr ds →
  __len__ ds
  = sum_list (map (λ x, length (glob fs star x.1))
                  (attempts fs train sanity root)).
Proof.
  unfold __init__, mbind, result_bind, __len__.
  destruct (read_paths fs train sanity root) as [|[paths labels]] eqn:Hr;
    [done |].
  intros [= <-]. simpl.
  apply read_paths_inr, run_attempts_inr in Hr as [Hall [= _ ->]].
  induction Hall as [|x l Hx _ IH]; simpl; [done |].
  rewrite length_app, IH. f_equal. by apply contributed_length.
Qed.

Lemma init_sample_count_witness :
  ∃ ds : @dataset Z,
    __init__ Samples.root_traced_mismatch [] None true None = inr ds ∧
    __len__ ds
    = sum_list (map (λ x, length (glob Samples.root_traced_mismatch star x.1))
                    (attempts Samples.root_traced_mismatch true None [])).
Proof.
  eexists. split; [vm_compute; reflexivity |].
  apply (init_sample_count Samples.root_traced_mismatch [] None true None).
  vm_compute. reflexivity.
Defined.

(** X15.  A processed writer-attempt whose label folder lists no sub-subfolder
    (an empty attempt included) aborts construction: indexing the empty
    listing at 0 raises IndexError in the body of the attempt. *)
Theorem empty_attempt_aborts {px} (fs : @node px) (root : path)
    (tr : option (@ndarray px → result (@ndarray px))) (train : bool)
    (sanity : option bool) (x : path * path) :
  x ∈ attempts fs train sanity root →
  glob fs star x.2 = [] →
  (∀ a, attempt fs x.1 x.2 a = inl IndexError) ∧
  ∃ e, read_paths fs train sanity root = inl e ∧
       __init__ fs root tr train sanity = inl e.
Proof.
  intros Hx Hnil.
  assert (∀ a, attempt fs x.1 x.2 a = inl IndexError) as Hatt.
  { intros a. unfold attempt. rewrite Hnil. simpl.
    destruct (glob fs star x.1); done. }
  split; [done |].
  destruct (read_paths_error fs train sanity root x Hx) as [e He].
  - intros [c Hc]. unfold contribution in Hc. by rewrite Hatt in Hc.
  - exists e. split; [done | by apply init_error].
Qed.

Lemma empty_attempt_aborts_witness :
  ∃ e, read_paths EdgeSamples.root_empty_attempt true None [] = inl e ∧
       __init__ EdgeSamples.root_empty_attempt [] None true None = inl e.
Proof.
  apply (empty_attempt_aborts EdgeSamples.root_empty_attempt [] None true
           None (SamplePaths.tf "w0")).
  - assert (attempts EdgeSamples.root_empty_attempt true None []
            = [SamplePaths.tf "w0"]) as -> by (vm_compute; reflexivity).
    left.
  - reflexivity.
Defined.

(** X16.  When the label file of a processed writer-attempt, the
    [labels(sent1).json] of its first label sub-subfolder, cannot be read
    (it is missing, is a directory, or has no [person]/[id] entry),
    construction aborts. *)
Theorem unreadable_label_aborts {px} (fs : @node px) (root : path)
    (tr : option (@ndarray px → result (@ndarray px))) (train : bool)
    (sanity : option bool) (x : path * path) (lab0 : path) (e : exn) :
  x ∈ attempts fs train sanity root →
  head (glob fs star x.2) = Some lab0 →
  get_label_from_json fs (lab0 ++ ["labels(sent1).json"]) = inl e →
  ∃ e', read_paths fs train sanity root = inl e' ∧
        __init__ fs root tr train sanity = inl e'.
Proof.
  intros Hx Hlab0 Hjson.
  destruct (read_paths_error fs train sanity root x Hx) as [e' He'].
  - intros [c Hc]. destruct x as [i l].
    apply contribution_inr in Hc as (_ & lab0' & label & Hl & Hj & _).
    simpl in *. rewrite Hlab0 in Hl. injection Hl as <-.
    rewrite Hjson in Hj. done.
  - exists e'. split; [done | by apply init_error].
Qed.

Lemma unreadable_label_aborts_witness :
  ∃ e', read_paths EdgeSamples.root_no_label true None [] = inl e' ∧
        __init__ EdgeSamples.root_no_label [] None true None = inl e'.
Proof.
  apply (unreadable_label_aborts EdgeSamples.root_no_label [] None true None
           (SamplePaths.tf "w0")
           (SamplePaths.variant (SamplePaths.tf "w0") "v0").2 OSError).
  - assert (attempts EdgeSamples.root_no_label true None []
            = [SamplePaths.tf "w0"]) as -> by (vm_compute; reflexivity).
    left.
  - reflexivity.
  - reflexivity.
Defined.

(** ** What the resolved samples are *)

Lemma resolve_snoc {px} (fs : @node px) (p : path) (name : string) :
  resolve fs (p ++ [name])
  = match resolve fs p with
    | Some (Dir es) => entry name es
    | _ => None
    end.
Proof.
  revert fs. induction p as [|n p IH]; intros fs; simpl.
  - destruct fs as [c | es]; [done |]. by destruct (entry name es).
  - destruct fs as [c | es]; [done |].
    destruct (entry n es) as [x|]; [apply IH | done].
Qed.

Lemma entry_is_Some {px} (name : string) (es : list (string * @node px))
    (x : @node px) :
  In (name, x) es → is_Some (entry name es).
Proof.
  induction es as [|[n y] es IH]; simpl; [done |].
  destruct (String.eqb_spec n name) as [-> | Hne]; [eauto |].
  intros [[= -> _] | Hin]; [done | by apply IH].
Qed.

Lemma glob_exists {px} (fs : @node px) (matches : string → bool)
    (p q : path) :
  q ∈ glob fs matches p → is_Some (resolve fs q).
Proof.
  unfold glob. destruct (resolve fs p) as [[c | es] |] eqn:Hp;
    try (by intros ?%elem_of_nil).
  intros Hq. apply list_elem_of_In, in_map_iff in Hq as ([n x] & <- & He).
  apply filter_In in He as [He _]. rewrite resolve_snoc, Hp. simpl.
  by eapply entry_is_Some.
Qed.

Lemma pos_loop_head {px} (fs : @node px) (label_path : path)
    (zipped : list (path * path)) (r : list path) :
  pos_loop fs label_path zipped [] = inr r →
  Forall2 (λ z p, head (glob fs canonical z.1) = Some p) zipped r.
Proof.
  revert r. induction zipped as [|[img_pos lab_pos] rest IH]; intros r; simpl.
  - intros [= <-]. constructor.
  - rewrite index_or_raise_0. unfold mbind at 1, result_bind at 1.
    destruct (glob fs canonical img_pos) as [|ip g] eqn:Hg; [done |].
    unfold mbind, result_bind.
    destruct (index_or_raise ip (-3)) as [|a]; [done |].
    destruct (index_or_raise label_path (-3)) as [|b]; [done |].
    destruct (String.eqb a b); [| done].
    rewrite pos_loop_acc. unfold mbind, result_bind.
    destruct (pos_loop fs label_path rest []) as [|r'] eqn:Hr'; [done |].
    intros [= <-]. constructor; [simpl; by rewrite Hg | by apply IH].
Qed.

Lemma contribution_head {px} (fs : @node px) (img_tf lab_tf : path)
    (c : acc) :
  contribution fs (img_tf, lab_tf) = inr c →
  Forall2 (λ img_pos p, head (glob fs canonical img_pos) = Some p)
          (glob fs star img_tf) c.1.
Proof.
  unfold contribution, attempt. simpl.
  destruct (Nat.eqb_spec (length (glob fs star img_tf))
                         (length (glob fs star lab_tf))) as [Hlen | Hlen].
  - unfold mbind, result_bind.
    destruct (index_or_raise (glob fs star lab_tf) 0) as [|lab0]; [done |].
    destruct (pos_loop fs _ _ []) as [|r] eqn:Hr; [done |].
    destruct (get_label_from_json fs _) as [|label]; [done |].
    intros [= <-]. simpl. apply pos_loop_head in Hr.
    by eapply Forall2_zip_fst.
  - unfold mbind, result_bind.
    destruct (index_or_raise (glob fs star img_tf) 0); [done |].
    by destruct (index_or_raise (glob fs star lab_tf) 0).
Qed.

(** X17.  Every resolved image path lies four levels below the image tree of
    the selected split, as sentence group / writer-attempt / variant /
    file; the writer-attempt name is free of the traced marker, the file
    name matches ["*_0150_x*"], the file is the first such entry of its
    folder in listing order, and it exists. *)
Theorem resolved_paths_form {px} (fs : @node px) (root : path)
    (tr : option (@ndarray px → result (@ndarray px))) (train : bool)
    (sanity : option bool) (ds : @dataset px) :
  __init__ fs root tr train sanity = inr ds →
  Forall (λ p, ∃ sen tf pos file,
            p = image_p root train ++ [sen; tf; pos; file] ∧
            traced tf = false ∧ canonical file = true ∧
            head (glob fs canonical (parent p)) = Some p ∧
            is_Some (resolve fs p))
         (image_path_list ds).
Proof.
  unfold __init__, mbind, result_bind.
  destruct (read_paths fs train sanity root) as [|[paths labels]] eqn:Hr;
    [done |].
  intros [= <-]. simpl.
  apply read_paths_inr, run_attempts_inr in Hr as [Hall [= -> _]].
  apply Forall_forall. intros p (x & Hx & Hp)%elem_of_concat_map.
  eapply Forall_forall in Hall as [c Hc]; [| done].
  unfold contributed in Hp. rewrite Hc in Hp.
  apply elem_of_attempts in Hx as (s & name & Hs & Hxs & Hname & Htr).
  destruct s as [si sl], x as [i l]. simpl in *.
  apply elem_of_zip_l, elem_of_glob in Hs as (sen & -> & _).
  apply elem_of_zip_l, elem_of_glob in Hxs as (tf & -> & _). simpl in *.
  rewrite py_index_snoc in Hname. injection Hname as <-.
  apply list_elem_of_lookup in Hp as [k Hk].
  pose proof (contribution_head fs _ _ c Hc) as Hhead.
  destruct (Forall2_lookup_r _ _ _ _ _ Hhead Hk) as (img_pos & Hpos & Hh).
  assert (p ∈ glob fs canonical img_pos) as Hin.
  { destruct (glob fs canonical img_pos); [done |].
    injection Hh as ->. left. }
  pose proof (glob_exists _ _ _ _ Hin) as Hex.
  apply elem_of_glob in Hin as (file & -> & Hfile).
  apply list_elem_of_lookup_2, elem_of_glob in Hpos as (pos & -> & _).
  exists sen, tf, pos, file. rewrite parent_snoc.
  split_and!; try done. by rewrite <- !app_assoc.
Qed.

Lemma resolved_paths_form_witness :
  ∃ ds : @dataset Z,
    __init__ Samples.root_traced_mismatch [] None true None = inr ds ∧
    Forall (λ p, ∃ sen tf pos file,
              p = image_p [] true ++ [sen; tf; pos; file] ∧
              traced tf = false ∧ canonical file = true ∧
              head (glob Samples.root_traced_mismatch canonical (parent p))
              = Some p ∧
              is_Some (resolve Samples.root_traced_mismatch p))
           (image_path_list ds).
Proof.
  eexists. split; [vm_compute; reflexivity |].
  eapply (resolved_paths_form Samples.root_traced_mismatch [] None true None).
  vm_compute. reflexivity.
Defined.

Lemma blocks_lookup {A B C} (f : C → list A) (g : C → list B) (l : list C)
    (k : nat) (p : A) (q : B) :
  Forall (λ x, length (f x) = length (g x)) l →
  concat (map f l) !! k = Some p → concat (map g l) !! k = Some q →
  ∃ x j, x ∈ l ∧ f x !! j = Some p ∧ g x !! j = Some q.
Proof.
  intros Hlen. revert k. induction Hlen as [|x l Hx _ IH]; intros k; simpl;
    [done |].
  destruct (decide (k < length (f x))) as [Hlt | Hge].
  - rewrite !lookup_app_l by lia. intros Hp Hq.
    exists x, k. split; [left | done].
  - rewrite !lookup_app_r by lia. rewrite <- Hx. intros Hp Hq.
    destruct (IH _ Hp Hq) as (y & j & Hy & ? & ?).
    exists y, j. split; [by right | done].
Qed.

(** X18.  Image paths and labels stay paired: the label at a position of
    [label_list] is the writer-id read from the label file of the very
    writer-attempt whose folder holds the image path at that position,
    and the folder names of that attempt agree on the image and the label
    side. *)
Theorem sample_label_pairing {px} (fs : @node px) (root : path)
    (tr : option (@ndarray px → result (@ndarray px))) (train : bool)
    (sanity : option bool) (ds : @dataset px) (k : nat) (p : path)
    (label : string) :
  __init__ fs root tr train sanity = inr ds →
  image_path_list ds !! k = Some p →
  label_list ds !! k = Some label →
  ∃ x lab0,
    x ∈ attempts fs train sanity root ∧
    parent (parent p) = x.1 ∧
    head (glob fs star x.2) = Some lab0 ∧
    get_label_from_json fs (lab0 ++ ["labels(sent1).json"]) = inr label ∧
    py_index x.1 (-1) = py_index x.2 (-1).
Proof.
  unfold __init__, mbind, result_bind.
  destruct (read_paths fs train sanity root) as [|[paths labels]] eqn:Hr;
    [done |].
  intros [= <-]. simpl.
  apply read_paths_inr, run_attempts_inr in Hr as [Hall [= -> ->]].
  intros Hp Hl.
  assert (Forall (λ y, length (contributed fs y).1
                         = length (contributed fs y).2)
                 (attempts fs train sanity root)) as Hlen.
  { eapply Forall_impl; [exact Hall |]. intros y Hy.
    destruct (contributed_length fs y Hy) as [-> ->]. done. }
  destruct (blocks_lookup _ _ _ k p label Hlen Hp Hl)
    as (x & j & Hx & Hpj & Hlj).
  eapply Forall_forall in Hall as [c Hc]; [| done].
  unfold contributed in Hpj, Hlj. rewrite Hc in Hpj, Hlj.
  destruct x as [i l].
  apply contribution_inr in Hc as (_ & lab0 & lab & Hlab0 & Hjson & Hc2 & Hf).
  rewrite Hc2 in Hlj. apply lookup_replicate in Hlj as [-> _].
  destruct (Forall2_lookup_r _ _ _ _ _ Hf Hpj)
    as (img_pos & Hpos & file & -> & _ & _ & Hseg).
  apply list_elem_of_lookup_2, elem_of_glob in Hpos as (pos & -> & _).
  assert (lab0 ∈ glob fs star l) as Hin.
  { destruct (glob fs star l); [done |]. injection Hlab0 as ->. left. }
  apply elem_of_glob in Hin as (pos' & -> & _).
  rewrite !py_index_file_segment in Hseg.
  exists (i, l), (l ++ [pos']). simpl. rewrite !parent_snoc.
  split_and!; done.
Qed.

Lemma sample_label_pairing_witness :
  ∃ x lab0,
    x ∈ attempts Samples.root_2x2x3 true None [] ∧
    parent (parent (SamplePaths.images
                      ++ ["s0"; "w1"; "v0"; "w_0150_x1.png"])) = x.1 ∧
    head (glob Samples.root_2x2x3 star x.2) = Some lab0 ∧
    get_label_from_json Samples.root_2x2x3 (lab0 ++ ["labels(sent1).json"])
    = inr "id1" ∧
    py_index x.1 (-1) = py_index x.2 (-1).
Proof.
  eapply (sample_label_pairing Samples.root_2x2x3 [] None true None _ 3).
  - vm_compute. reflexivity.
  - reflexivity.
  - reflexivity.
Defined.

(** ** Where the sanity cut-off takes effect *)

Lemma do_break_at_cutoff (sanity : option bool) (train : bool) :
  sanity_on sanity = true → do_break sanity train (cutoff train) = true.
Proof. unfold do_break. intros ->. by destruct train. Qed.

Lemma do_break_elsewhere (sanity : option bool) (train : bool) (i : nat) :
  i ≠ cutoff train → do_break sanity train i = false.
Proof.
  intros Hne. destruct (do_break sanity train i) eqn:Hb; [| done].
  by apply do_break_cutoff in Hb.
Qed.

Lemma tf_loop_past_cutoff {px} (fs : @node px) (train : bool)
    (sanity off : option bool) (i_tf : nat) (zipped : list (path * path))
    (a : acc) :
  cutoff train < i_tf →
  sanity_on off = false →
  tf_loop fs train sanity i_tf zipped a = tf_loop fs train off i_tf zipped a.
Proof.
  intros Hi Hoff. revert i_tf a Hi.
  induction zipped as [|[img_tf lab_tf] rest IH]; intros i_tf a Hi; [done |].
  simpl. unfold mbind, result_bind.
  destruct (index_or_raise img_tf (-1)) as [|name]; [done |].
  destruct (traced name); [apply IH; lia |].
  destruct (attempt fs img_tf lab_tf a) as [|a']; [done |].
  rewrite (do_break_elsewhere sanity) by lia.
  rewrite (do_break_off off) by done. apply IH. lia.
Qed.

(** X19.  With sanity_check on, the sentence-group loop never looks past the
    group at its cut-off index (3 for training, 1 for validation): the
    outcome is that of the loop run on the first cut-off + 1 pairs. *)
Theorem sen_loop_cutoff {px} (fs : @node px) (train : bool)
    (sanity : option bool) (zipped : list (path * path)) (a : acc) :
  sanity_on sanity = true →
  sen_loop fs train sanity 0 zipped a
  = sen_loop fs train sanity 0 (take (S (cutoff train)) zipped) a.
Proof.
  intros Hon.
  assert (∀ i l a, i ≤ cutoff train →
            sen_loop fs train sanity i l a
            = sen_loop fs train sanity i (take (S (cutoff train - i)) l) a)
    as Hgen.
  { intros i l. revert i.
    induction l as [|[img_sen lab_sen] rest IH]; intros i a0 Hi; [done |].
    simpl. unfold mbind, result_bind.
    destruct (tf_loop fs train sanity 0 _ a0) as [|a']; [done |].
    destruct (decide (i = cutoff train)) as [-> | Hne].
    - by rewrite do_break_at_cutoff.
    - rewrite do_break_elsewhere by done.
      rewrite (IH (S i)) by lia.
      by replace (cutoff train - i) with (S (cutoff train - S i)) by lia. }
  rewrite (Hgen 0) by lia. by rewrite Nat.sub_0_r.
Qed.

Lemma sen_loop_cutoff_witness :
  length (sentence_pairs NulSamples.root_five_groups true []) = 5%nat ∧
  length (take 4 (sentence_pairs NulSamples.root_five_groups true []))
    = 4%nat ∧
  sen_loop NulSamples.root_five_groups true (Some true) 0
    (sentence_pairs NulSamples.root_five_groups true []) ([], [])
  = sen_loop NulSamples.root_five_groups true (Some true) 0
      (take 4 (sentence_pairs NulSamples.root_five_groups true [])) ([], []) ∧
  (∃ small full,
     sen_loop NulSamples.root_five_groups true (Some true) 0
       (sentence_pairs NulSamples.root_five_groups true []) ([], [])
       = inr small ∧
     sen_loop NulSamples.root_five_groups true None 0
       (sentence_pairs NulSamples.root_five_groups true []) ([], [])
       = inr full ∧
     length small.1 = 4%nat ∧ length full.1 = 5%nat).
Proof.
  split; [reflexivity |]. split; [reflexivity |]. split.
  - apply (sen_loop_cutoff NulSamples.root_five_groups true (Some true)).
    reflexivity.
  - do 2 eexists. split; [vm_compute; reflexivity |].
    split; [vm_compute; reflexivity |]. split; reflexivity.
Defined.

(** X20.  Within a sentence group, with sanity_check on: when the writer-
    attempt at the cut-off index is traced, its [continue] skips the
    cut-off test and the group is processed in full, as without
    sanity_check; when it is not traced, only the pairs up to the cut-off
    index are processed. *)
Theorem tf_loop_cutoff {px} (fs : @node px) (train : bool)
    (sanity off : option bool) (zipped : list (path * path)) (a : acc)
    (x : path * path) (name : string) :
  sanity_on sanity = true → sanity_on off = false →
  zipped !! cutoff train = Some x →
  py_index x.1 (-1) = Some name →
  tf_loop fs train sanity 0 zipped a
  = tf_loop fs train off 0
      (if traced name then zipped else take (S (cutoff train)) zipped) a.
Proof.
  intros Hon Hoff Hx Hname.
  assert (∀ i l a, i ≤ cutoff train → l !! (cutoff train - i) = Some x →
            tf_loop fs train sanity i l a
            = tf_loop fs train off i
                (if traced name then l
                 else take (S (cutoff train - i)) l) a) as Hgen.
  { intros i l. revert i.
    induction l as [|[img_tf lab_tf] rest IH]; intros i a0 Hi Hl; [done |].
    destruct (decide (i = cutoff train)) as [-> | Hne].
    - rewrite Nat.sub_diag in Hl |- *. injection Hl as <-. simpl in Hname.
      simpl. unfold index_or_raise. rewrite Hname. simpl.
      destruct (traced name) eqn:Htr.
      + simpl. unfold index_or_raise. rewrite Hname. simpl. rewrite Htr.
        apply tf_loop_past_cutoff; [lia | done].
      + simpl. unfold index_or_raise. rewrite Hname. simpl. rewrite Htr.
        unfold mbind, result_bind.
        destruct (attempt fs img_tf lab_tf a0) as [|a']; [done |].
        rewrite do_break_at_cutoff by done.
        by rewrite (do_break_off off).
    - replace (cutoff train - i) with (S (cutoff train - S i)) in Hl |- *
        by lia.
      simpl in Hl. specialize (IH (S i)).
      assert (tf_loop fs train sanity i ((img_tf, lab_tf) :: rest) a0
              = tf_loop fs train off i
                  ((img_tf, lab_tf)
                   :: (if traced name then rest
                       else take (S (cutoff train - S i)) rest)) a0) as ->.
      { simpl. unfold mbind, result_bind.
        destruct (index_or_raise img_tf (-1)) as [|n]; [done |].
        destruct (traced n); [apply IH; [lia | done] |].
        destruct (attempt fs img_tf lab_tf a0) as [|a']; [done |].
        rewrite do_break_elsewhere by done.
        rewrite (do_break_off off) by done. apply IH; [lia | done]. }
      by destruct (traced name). }
  specialize (Hgen 0 zipped a). rewrite Nat.sub_0_r in Hgen.
  apply Hgen; [lia | done].
Qed.

Lemma tf_loop_cutoff_witness :
  tf_loop EdgeSamples.root_traced_at_cutoff true (Some true) 0
    (attempt_pairs EdgeSamples.root_traced_at_cutoff
       (SamplePaths.images ++ ["s0"], SamplePaths.labels ++ ["s0"]))
    ([], [])
  = tf_loop EdgeSamples.root_traced_at_cutoff true None 0
      (attempt_pairs EdgeSamples.root_traced_at_cutoff
         (SamplePaths.images ++ ["s0"], SamplePaths.labels ++ ["s0"]))
      ([], []).
Proof.
  apply (tf_loop_cutoff EdgeSamples.root_traced_at_cutoff true (Some true)
           None _ ([], []) (SamplePaths.tf "w3_모사") "w3_모사").
  - reflexivity.
  - reflexivity.
  - reflexivity.
  - reflexivity.
Defined.
